(** * ebchatbot backend: a shallow embedding of [agent.py] and [main.py]

    The development models the four sandbox tools built by [build_tools]
    ([execute_python], [read_file], [write_file], [list_files]), the
    WebSocket endpoint of [main.py] and the client of [test_ws.py], and
    proves the properties the specification states about them.

    Conventions.
    - A Python [str] is a list of code points ([pystr]); the contents of a
      file on disk are a list of bytes.  Both are lists of [N].
    - Python exceptions are values of type [exn]; code that may raise
      returns a [result].  Only the [Exception] hierarchy is modelled
      ([KeyboardInterrupt] and friends are not failures of a tool).
    - The operating system is a small POSIX model: a finite map from
      canonical locations (lists of path components) to nodes, a working
      directory, a temporary directory and a child-process oracle.  There
      are no symbolic links, no permissions and no limits on the length
      of names, and nothing but the modelled program and the child
      process it starts changes the file system.
    - A WebSocket connection is the list of text frames the client sends
      before it disconnects, the frames sent to it, and whether it is
      still there to take them; sending to a client that has gone fails
      as it does in Starlette.  The agent is a function from the
      conversation to the events it streams. *)

From Stdlib Require Import NArith ZArith Ascii String List Lia DecimalString.
From stdpp Require Import base decidable option numbers list gmap sorting.

Local Open Scope N_scope.

(** ** Python strings *)

Abbreviation pystr := (list N).

(** A source literal made of ASCII characters. *)
Definition lit (s : string) : pystr :=
  map N_of_ascii (list_ascii_of_string s).

(** [str(n)] for a non-negative and for an arbitrary integer. *)
Definition str_of_N (n : N) : pystr :=
  lit (NilZero.string_of_uint (N.to_uint n)).

Definition str_of_Z (z : Z) : pystr :=
  lit (NilZero.string_of_int (Z.to_int z)).

(** [len(s)] *)
Definition len (s : pystr) : N := N.of_nat (length s).

(** [s[:n]] *)
Definition slice_to (n : N) (s : pystr) : pystr := take (N.to_nat n) s.

(** [sep.join(lines)] *)
Fixpoint join (sep : pystr) (lines : list pystr) : pystr :=
  match lines with
  | [] => []
  | [l] => l
  | l :: rest => l ++ sep ++ join sep rest
  end.

(** [str.isspace] on one character: the code points [str.strip()] removes. *)
Definition isspace (c : N) : bool :=
  ((9 <=? c) && (c <=? 13)) || ((28 <=? c) && (c <=? 32))
  || (c =? 133) || (c =? 160) || (c =? 5760)
  || ((8192 <=? c) && (c <=? 8202))
  || (c =? 8232) || (c =? 8233) || (c =? 8239) || (c =? 8287) || (c =? 12288).

Fixpoint dropwhile (p : N -> bool) (s : pystr) : pystr :=
  match s with
  | [] => []
  | c :: r => if p c then dropwhile p r else s
  end.

Definition lstrip (s : pystr) : pystr := dropwhile isspace s.
Definition rstrip (s : pystr) : pystr := rev (dropwhile isspace (rev s)).
Definition strip (s : pystr) : pystr := rstrip (lstrip s).

(** Truthiness of a string: [bool(s)]. *)
Definition truthy (s : pystr) : bool :=
  match s with [] => false | _ => true end.

(** [a or b] on strings. *)
Definition str_or (a b : pystr) : pystr := if truthy a then a else b.

(** [needle in s] for strings. *)
Definition is_prefix (p s : pystr) : bool :=
  bool_decide (take (length p) s = p).

Fixpoint contains (s needle : pystr) : bool :=
  is_prefix needle s ||
  match s with
  | [] => false
  | _ :: r => contains r needle
  end.

(** Lower-case hexadecimal with at least [width] digits. *)
Definition hex_digit (d : N) : N := if d <? 10 then 48 + d else 87 + d.

Fixpoint hex_digits (width : nat) (n : N) : pystr :=
  match width with
  | O => []
  | S k => hex_digits k (n / 16) ++ [hex_digit (n mod 16)]
  end.

(** [repr(s)] of a string, as [OSError] shows a file name: quotes chosen as
    Python does, backslash, quote and ASCII control characters escaped.
    Code points from 128 on are kept as they are, which is what Python does
    for the printable ones. *)
Definition repr_char (quote c : N) : pystr :=
  if c =? 92 then [92; 92]
  else if c =? quote then [92; quote]
  else if c =? 9 then lit "\t"
  else if c =? 10 then lit "\n"
  else if c =? 13 then lit "\r"
  else if (c <? 32) || (c =? 127) then lit "\x" ++ hex_digits 2 c
  else [c].

Definition repr (s : pystr) : pystr :=
  let quote :=
    if bool_decide (39 ∈ s) && negb (bool_decide (34 ∈ s)) then 34 else 39 in
  [quote] ++ concat (map (repr_char quote) s) ++ [quote].

(** ** Exceptions and results *)

Inductive exn_class :=
  | FileNotFoundError | IsADirectoryError | NotADirectoryError
  | FileExistsError | OSError
  | ValueError | UnicodeEncodeError | UnicodeDecodeError
  | TimeoutExpired
  | JSONDecodeError | AttributeError | KeyError | TypeError
  | RuntimeError | WebSocketDisconnect.

Global Instance exn_class_eq_dec : EqDecision exn_class.
Proof. solve_decision. Defined.

(** An exception: its class and [str(exc)]. *)
Record exn := Exn { exn_class_of : exn_class; exn_str : pystr }.

Inductive result (A : Type) :=
  | Ok (a : A)
  | Raise (e : exn).
Arguments Ok {A} a.
Arguments Raise {A} e.

Definition bind {A B} (r : result A) (k : A -> result B) : result B :=
  match r with
  | Ok a => k a
  | Raise e => Raise e
  end.

Notation "'do' x <- r ; k" := (bind r (fun x => k))
  (at level 10, x name, r at level 100, k at level 200).

(** [OSError] with an errno and a file name: [str(exc)] is
    ["[Errno n] strerror: 'filename'"]. *)
Definition os_error (c : exn_class) (errno : N) (strerror : string)
    (filename : pystr) : exn :=
  Exn c (lit "[Errno " ++ str_of_N errno ++ lit "] " ++ lit strerror
           ++ lit ": " ++ repr filename).

Definition ENOENT := os_error FileNotFoundError 2 "No such file or directory".
Definition EEXIST := os_error FileExistsError 17 "File exists".
Definition ENOTDIR := os_error NotADirectoryError 20 "Not a directory".
Definition EISDIR := os_error IsADirectoryError 21 "Is a directory".

(** ** The UTF-8 codec ([encoding="utf-8"], strict error handling) *)

Definition is_surrogate (c : N) : bool := (0xD800 <=? c) && (c <=? 0xDFFF).

(** Code points are [N]; values from [0x110000] on are not characters of
    any Python string and are refused like surrogates. *)
Definition encodable (c : N) : bool := negb (is_surrogate c) && (c <? 0x110000).

Definition utf8_encode_char (c : N) : list N :=
  if c <? 0x80 then [c]
  else if c <? 0x800 then [0xC0 + c / 64; 0x80 + c mod 64]
  else if c <? 0x10000 then
    [0xE0 + c / 4096; 0x80 + (c / 64) mod 64; 0x80 + c mod 64]
  else
    [0xF0 + c / 262144; 0x80 + (c / 4096) mod 64;
     0x80 + (c / 64) mod 64; 0x80 + c mod 64].

(** The escape Python prints for the offending character. *)
Definition escape_char (c : N) : pystr :=
  if c <? 0x100 then lit "\x" ++ hex_digits 2 c
  else if c <? 0x10000 then lit "\u" ++ hex_digits 4 c
  else lit "\U" ++ hex_digits 8 c.

(** Length of the run of unencodable characters at the head of [s]. *)
Fixpoint bad_run (s : pystr) : nat :=
  match s with
  | [] => O
  | c :: r => if encodable c then O else S (bad_run r)
  end.

Definition encode_error (pos : N) (s : pystr) : exn :=
  Exn UnicodeEncodeError
    (lit "'utf-8' codec can't encode " ++
     match s, bad_run s with
     | c :: _, 1%nat =>
         lit "character '" ++ escape_char c ++ lit "' in position "
           ++ str_of_N pos
     | _, n =>
         lit "characters in position " ++ str_of_N pos ++ lit "-"
           ++ str_of_N (pos + N.of_nat n - 1)
     end ++ lit ": surrogates not allowed").

Fixpoint utf8_encode_from (pos : N) (s : pystr) : result (list N) :=
  match s with
  | [] => Ok []
  | c :: r =>
      if encodable c then
        do bs <- utf8_encode_from (pos + 1) r; Ok (utf8_encode_char c ++ bs)
      else Raise (encode_error pos s)
  end.

Definition utf8_encode (s : pystr) : result (list N) := utf8_encode_from 0 s.

Definition is_cont (b : N) : bool := (0x80 <=? b) && (b <=? 0xBF).

Definition decode_error (pos b : N) (why : string) : exn :=
  Exn UnicodeDecodeError
    (lit "'utf-8' codec can't decode byte 0x" ++ hex_digits 2 b
       ++ lit " in position " ++ str_of_N pos ++ lit ": " ++ lit why).

(** Strict decoding: shortest form only, no surrogates, at most [0x10FFFF]. *)
Fixpoint utf8_decode_from (pos : N) (bs : list N) : result pystr :=
  match bs with
  | [] => Ok []
  | b0 :: r0 =>
      if b0 <? 0x80 then
        do s <- utf8_decode_from (pos + 1) r0; Ok (b0 :: s)
      else if (0xC2 <=? b0) && (b0 <? 0xE0) then
        match r0 with
        | b1 :: r1 =>
            if is_cont b1 then
              do s <- utf8_decode_from (pos + 2) r1;
              Ok ((b0 - 0xC0) * 64 + (b1 - 0x80) :: s)
            else Raise (decode_error pos b0 "invalid continuation byte")
        | [] => Raise (decode_error pos b0 "unexpected end of data")
        end
      else if (0xE0 <=? b0) && (b0 <? 0xF0) then
        match r0 with
        | b1 :: b2 :: r2 =>
            let c := (b0 - 0xE0) * 4096 + (b1 - 0x80) * 64 + (b2 - 0x80) in
            if is_cont b1 && is_cont b2 && (0x800 <=? c) && negb (is_surrogate c)
            then do s <- utf8_decode_from (pos + 3) r2; Ok (c :: s)
            else Raise (decode_error pos b0 "invalid continuation byte")
        | _ => Raise (decode_error pos b0 "unexpected end of data")
        end
      else if (0xF0 <=? b0) && (b0 <? 0xF5) then
        match r0 with
        | b1 :: b2 :: b3 :: r3 =>
            let c := (b0 - 0xF0) * 262144 + (b1 - 0x80) * 4096
                     + (b2 - 0x80) * 64 + (b3 - 0x80) in
            if is_cont b1 && is_cont b2 && is_cont b3
               && (0x10000 <=? c) && (c <? 0x110000)
            then do s <- utf8_decode_from (pos + 4) r3; Ok (c :: s)
            else Raise (decode_error pos b0 "invalid continuation byte")
        | _ => Raise (decode_error pos b0 "unexpected end of data")
        end
      else Raise (decode_error pos b0 "invalid start byte")
  end.

Definition utf8_decode (bs : list N) : result pystr := utf8_decode_from 0 bs.

(** Text-mode reading with the default [newline=None]: ["\r\n"] and a lone
    ["\r"] are both delivered as ["\n"]. *)
Fixpoint universal_newlines (s : pystr) : pystr :=
  match s with
  | [] => []
  | c :: r =>
      if c =? 13 then
        10 :: match r with
              | d :: r' =>
                  if d =? 10 then universal_newlines r'
                  else universal_newlines r
              | [] => []
              end
      else c :: universal_newlines r
  end.

(** ** The operating system *)

(** A node of the file system: a regular file with its bytes, a directory,
    or a special file (a socket), which is neither. *)
Inductive node :=
  | File (data : list N)
  | Dir
  | Socket.

Global Instance node_eq_dec : EqDecision node.
Proof. solve_decision. Defined.

(** [subprocess.CompletedProcess] with [capture_output=True, text=True]. *)
Record CompletedProcess :=
  { returncode : Z; stdout : pystr; stderr : pystr }.

(** The state of the machine.  [fs] maps a canonical location, the list of
    path components from the root, to its node; the root [[]] is a
    directory.  [python] is the child process: what running the
    interpreter on a script path does to the file system it is started
    on.  Its result is what [subprocess.run] with a 30 s timeout sees (a
    completed process, or an exception such as [TimeoutExpired]) and the
    file system the child leaves; a child that is killed at the time-out
    leaves what it had done by then. *)
Record world := World {
  fs : gmap (list pystr) node;
  cwd : list pystr;
  tmpdir : pystr;
  tmp_seed : N;
  python : pystr -> gmap (list pystr) node ->
           result CompletedProcess * gmap (list pystr) node
}.

Definition set_fs (w : world) (f : gmap (list pystr) node) : world :=
  World f (cwd w) (tmpdir w) (tmp_seed w) (python w).

Definition next_seed (w : world) : world :=
  World (fs w) (cwd w) (tmpdir w) (tmp_seed w + 1) (python w).

(** Stateful code that may raise, over a state [S]; the state survives an
    exception. *)
Definition ST (S A : Type) : Type := S -> result A * S.

Abbreviation M := (ST world).

Definition ret {S A} (a : A) : ST S A := fun s => (Ok a, s).
Definition raise {S A} (e : exn) : ST S A := fun s => (Raise e, s).
Definition lift {S A} (r : result A) : ST S A := fun s => (r, s).

Definition mbind {S A B} (m : ST S A) (k : A -> ST S B) : ST S B :=
  fun s =>
    match m s with
    | (Ok a, s') => k a s'
    | (Raise e, s') => (Raise e, s')
    end.

Notation "'run' x <- m ; k" := (mbind m (fun x => k))
  (at level 10, x name, m at level 100, k at level 200).

(** [except C:] clauses.  [except Exception] catches every modelled
    exception; the other clauses used by the program name a leaf class. *)
Inductive except_clause :=
  | ExceptClass (c : exn_class)
  | ExceptException.

Definition catches (cl : except_clause) (e : exn) : bool :=
  match cl with
  | ExceptClass c => bool_decide (exn_class_of e = c)
  | ExceptException => true
  end.

Fixpoint handle {S A} (handlers : list (except_clause * (exn -> ST S A)))
    (e : exn) : ST S A :=
  match handlers with
  | [] => raise e
  | (cl, h) :: rest => if catches cl e then h e else handle rest e
  end.

(** [try: body  except ...: ...] *)
Definition try_except {S A} (body : ST S A)
    (handlers : list (except_clause * (exn -> ST S A))) : ST S A :=
  fun s =>
    match body s with
    | (Ok a, s') => (Ok a, s')
    | (Raise e, s') => handle handlers e s'
    end.

(** [try: body  finally: cleanup]: the clean-up runs on every exit of the
    body, and an exception it raises replaces the body's outcome. *)
Definition try_finally {S A} (body : ST S A) (cleanup : ST S unit) : ST S A :=
  fun s =>
    match body s with
    | (r, s') =>
        match cleanup s' with
        | (Ok _, s'') => (r, s'')
        | (Raise e, s'') => (Raise e, s'')
        end
    end.

(** *** Paths *)

(** [s.split(sep)] on one separator character. *)
Fixpoint split_on (sep : N) (s : pystr) : list pystr :=
  match s with
  | [] => [[]]
  | c :: r =>
      if c =? sep then [] :: split_on sep r
      else match split_on sep r with
           | h :: t => (c :: h) :: t
           | [] => [[c]]
           end
  end.

Definition node_at (f : gmap (list pystr) node) (l : list pystr)
    : option node :=
  match l with
  | [] => Some Dir
  | _ => f !! l
  end.

(** Path resolution, one component at a time from [cur]: every component
    is looked up in a directory; empty components and ["."] stay, [".."]
    goes up.  The last component need not exist.  [p] is the path as the
    caller wrote it, for the error. *)
Fixpoint walk (f : gmap (list pystr) node) (p : pystr)
    (cur : list pystr) (comps : list pystr) : result (list pystr) :=
  match comps with
  | [] => Ok cur
  | c :: rest =>
      match node_at f cur with
      | Some Dir =>
          if bool_decide (c = [] \/ c = lit ".") then walk f p cur rest
          else if bool_decide (c = lit "..") then
            walk f p (removelast cur) rest
          else walk f p (cur ++ [c]) rest
      | Some _ => Raise (ENOTDIR p)
      | None => Raise (ENOENT p)
      end
  end.

Definition null_byte : exn := Exn ValueError (lit "embedded null byte").

(** The file-system encoding, UTF-8 with [surrogateescape]: the code
    points U+DC80 to U+DCFF stand for bytes that are not UTF-8 and pass;
    any other surrogate is refused. *)
Definition fs_encodable (c : N) : bool :=
  encodable c || ((0xDC80 <=? c) && (c <=? 0xDCFF)).

Fixpoint fsencode_from (pos : N) (s : pystr) : result unit :=
  match s with
  | [] => Ok tt
  | c :: r =>
      if fs_encodable c then fsencode_from (pos + 1) r
      else Raise (encode_error pos s)
  end.

(** What [open] and the [os] functions do with a path before the system
    call: it is encoded for the file system, and must hold no NUL. *)
Definition path_converter (p : pystr) : result unit :=
  match fsencode_from 0 p with
  | Ok _ => if bool_decide (0 ∈ p) then Raise null_byte else Ok tt
  | Raise e => Raise e
  end.

Definition resolve (w : world) (p : pystr) : result (list pystr) :=
  match path_converter p with
  | Raise e => Raise e
  | Ok _ =>
      match p with
      | [] => Raise (ENOENT p)
      | c :: _ =>
          walk (fs w) p (if c =? 47 then [] else cwd w) (split_on 47 p)
      end
  end.

(** [os.path.dirname] (posixpath): everything up to the last ['/'], with
    trailing slashes removed unless it consists of slashes only. *)
Definition dirname (p : pystr) : pystr :=
  let head := rev (dropwhile (fun c => negb (c =? 47)) (rev p)) in
  if forallb (fun c => c =? 47) head then head
  else rev (dropwhile (fun c => c =? 47) (rev head)).

(** [os.path.exists] *)
Definition os_path_exists (p : pystr) : M bool :=
  fun w =>
    match resolve w p with
    | Ok l => (Ok (bool_decide (is_Some (node_at (fs w) l))), w)
    | Raise _ => (Ok false, w)
    end.

(** *** Files *)

Definition ENXIO := os_error OSError 6 "No such device or address".

(** [open(p, "r")] followed by reading the whole file: the bytes on disk. *)
Definition os_read_bytes (p : pystr) : M (list N) :=
  fun w =>
    match resolve w p with
    | Raise e => (Raise e, w)
    | Ok l =>
        match node_at (fs w) l with
        | Some (File data) => (Ok data, w)
        | Some Dir => (Raise (EISDIR p), w)
        | Some Socket => (Raise (ENXIO p), w)
        | None => (Raise (ENOENT p), w)
        end
    end.

(** [with open(p, "r", encoding="utf-8") as f: f.read(n)]: the bytes are
    decoded, newlines translated, and at most [n] characters returned.
    The file is decoded as a whole, which is what the chunks the text
    layer reads amount to for a file that decodes.  A file with an
    invalid byte raises here wherever the byte is; the text layer raises
    only if it reads that far, which depends on its chunk sizes. *)
Definition read_text (p : pystr) (n : N) : M pystr :=
  run bytes <- os_read_bytes p;
  run text <- lift (utf8_decode bytes);
  ret (slice_to n (universal_newlines text)).

(** [open(p, "w")]: the file is created in an existing directory, or
    truncated; the result is the location of the open file. *)
Definition open_w (p : pystr) : M (list pystr) :=
  fun w =>
    match resolve w p with
    | Raise e => (Raise e, w)
    | Ok l =>
        match node_at (fs w) l with
        | Some Dir => (Raise (EISDIR p), w)
        | Some Socket => (Raise (ENXIO p), w)
        | Some (File _) => (Ok l, set_fs w (<[l := File []]> (fs w)))
        | None =>
            match node_at (fs w) (removelast l) with
            | Some Dir => (Ok l, set_fs w (<[l := File []]> (fs w)))
            | _ => (Raise (ENOENT p), w)
            end
        end
    end.

(** [f.write(text)] on a file opened for writing in text mode, UTF-8: the
    text is encoded at once (on POSIX ["\n"] is written as it is), or
    [UnicodeEncodeError] is raised and nothing is written. *)
Definition f_write (f : list pystr) (text : pystr) : M unit :=
  fun w =>
    match utf8_encode text with
    | Ok bytes => (Ok tt, set_fs w (<[f := File bytes]> (fs w)))
    | Raise e => (Raise e, w)
    end.

(** [os.makedirs(p, exist_ok=True)]: every missing directory on the way is
    created; a directory that exists is accepted; anything else in the
    way is an error.  Directories made before a failure stay. *)
Fixpoint mkdirs (p : pystr) (cur : list pystr) (comps : list pystr)
    (f : gmap (list pystr) node) : result unit * gmap (list pystr) node :=
  match comps with
  | [] =>
      match node_at f cur with
      | Some Dir => (Ok tt, f)
      | _ => (Raise (EEXIST p), f)
      end
  | c :: rest =>
      match node_at f cur with
      | Some Dir =>
          if bool_decide (c = [] \/ c = lit ".") then mkdirs p cur rest f
          else if bool_decide (c = lit "..") then
            mkdirs p (removelast cur) rest f
          else
            match f !! (cur ++ [c]) with
            | None => mkdirs p (cur ++ [c]) rest (<[cur ++ [c] := Dir]> f)
            | Some _ => mkdirs p (cur ++ [c]) rest f
            end
      | Some _ => (Raise (ENOTDIR p), f)
      | None => (Raise (ENOENT p), f)
      end
  end.

Definition os_makedirs (p : pystr) : M unit :=
  fun w =>
    match path_converter p with
    | Raise e => (Raise e, w)
    | Ok _ =>
        match p with
        | [] => (Raise (ENOENT p), w)
        | c :: _ =>
            let '(r, f) :=
              mkdirs p (if c =? 47 then [] else cwd w) (split_on 47 p) (fs w)
            in (r, set_fs w f)
        end
    end.

(** [os.unlink] *)
Definition os_unlink (p : pystr) : M unit :=
  fun w =>
    match resolve w p with
    | Raise e => (Raise e, w)
    | Ok l =>
        match node_at (fs w) l with
        | Some Dir => (Raise (EISDIR p), w)
        | Some _ => (Ok tt, set_fs w (delete l (fs w)))
        | None => (Raise (ENOENT p), w)
        end
    end.

(** *** Directories *)

(** [os.DirEntry] *)
Record DirEntry := { name : pystr; entry_node : node }.

Global Instance DirEntry_eq_dec : EqDecision DirEntry.
Proof. solve_decision. Defined.

Definition is_dir (e : DirEntry) : bool :=
  match entry_node e with Dir => true | _ => false end.

Definition is_file (e : DirEntry) : bool :=
  match entry_node e with File _ => true | _ => false end.

(** [e.stat().st_size], asked of regular files only. *)
Definition st_size (e : DirEntry) : N :=
  match entry_node e with File data => len data | _ => 0 end.

Definition child_of (l : list pystr) (kn : list pystr * node)
    : option DirEntry :=
  if bool_decide (kn.1 <> [] /\ removelast kn.1 = l)
  then Some {| name := List.last kn.1 []; entry_node := kn.2 |}
  else None.

(** [os.scandir]: the entries of a directory, in the order of the
    directory on disk. *)
Definition os_scandir (p : pystr) : M (list DirEntry) :=
  fun w =>
    match resolve w p with
    | Raise e => (Raise e, w)
    | Ok l =>
        match node_at (fs w) l with
        | Some Dir => (Ok (omap (child_of l) (map_to_list (fs w))), w)
        | Some _ => (Raise (ENOTDIR p), w)
        | None => (Raise (ENOENT p), w)
        end
    end.

(** *** Temporary files and child processes *)

Definition tmp_name (seed : N) : pystr :=
  lit "tmp" ++ str_of_N seed ++ lit ".py".

(** [tempfile.NamedTemporaryFile(mode="w", suffix=".py", delete=False)]:
    a new, empty file in the temporary directory, opened for writing; the
    result is [f.name] and the open file.  One candidate name is drawn; a
    name that is taken is reported as [tempfile] does when it runs out of
    candidates. *)
Definition NamedTemporaryFile : M (pystr * list pystr) :=
  fun w =>
    let path := tmpdir w ++ lit "/" ++ tmp_name (tmp_seed w) in
    let w1 := next_seed w in
    match resolve w1 path with
    | Raise e => (Raise e, w1)
    | Ok l =>
        match node_at (fs w1) l, node_at (fs w1) (removelast l) with
        | Some _, _ =>
            (Raise (Exn FileExistsError
                      (lit "[Errno 17] No usable temporary file name found")),
             w1)
        | None, Some Dir =>
            (Ok (path, l), set_fs w1 (<[l := File []]> (fs w1)))
        | None, _ => (Raise (ENOENT path), w1)
        end
    end.

(** [subprocess.run(["python", path], capture_output=True, text=True,
    timeout=30)] *)
Definition subprocess_run (path : pystr) : M CompletedProcess :=
  fun w =>
    match python w path (fs w) with
    | (r, f) => (r, set_fs w f)
    end.

(** ** The tools of [build_tools] (agent.py) *)

(** The local variable [tmp_path] of [execute_python] lives next to the
    world while the function runs. *)
Definition on_world {L A} (m : M A) : ST (world * L) A :=
  fun s =>
    match m s.1 with
    | (r, w') => (r, (w', s.2))
    end.

Definition set_local {L} (v : L) : ST (world * L) unit :=
  fun s => (Ok tt, (s.1, v)).

Definition get_local {L} : ST (world * L) L :=
  fun s => (Ok s.2, s).

(** [f"Error: {exc}"] *)
Definition error_string (exc : exn) : pystr := lit "Error: " ++ exn_str exc.

(** The [try] suite of [execute_python]. *)
Definition execute_python_try (code : pystr)
    : ST (world * option pystr) pystr :=
  run f <- on_world NamedTemporaryFile;
  run _ <- on_world (f_write f.2 code);
  run _ <- set_local (Some f.1);
  let tmp_path := f.1 in
  run result <- on_world (subprocess_run tmp_path);
  if (returncode result =? 0)%Z then
    ret (str_or (strip (stdout result)) (lit "(no output)"))
  else
    ret (lit "Exit " ++ str_of_Z (returncode result) ++ lit ":" ++ [10]
           ++ strip (stderr result)).

(** The [finally] suite of [execute_python]. *)
Definition execute_python_finally : ST (world * option pystr) unit :=
  run tmp_path <- get_local;
  match tmp_path with
  | Some p =>
      run present <- on_world (os_path_exists p);
      if truthy p && present then on_world (os_unlink p) else ret tt
  | None => ret tt
  end.

Definition execute_python_frame (code : pystr)
    : ST (world * option pystr) pystr :=
  try_finally
    (try_except (execute_python_try code)
       [ (ExceptClass TimeoutExpired,
          fun _ => ret (lit "Error: execution timed out (30 s limit)"));
         (ExceptException, fun exc => ret (error_string exc)) ])
    execute_python_finally.

(** [execute_python(code)]: the frame starts with [tmp_path = None]. *)
Definition execute_python (code : pystr) : M pystr :=
  fun w =>
    match execute_python_frame code (w, None) with
    | (r, s) => (r, s.1)
    end.

(** The cap of [f.read(12_000)]. *)
Definition READ_CAP : N := 12000.

Definition read_file_try (file_path : pystr) : M pystr :=
  run data <- read_text file_path READ_CAP;
  ret (if truthy data then data else lit "(empty file)").

Definition not_found_string (file_path : pystr) : pystr :=
  lit "Error: file not found " ++ [8211] ++ lit " " ++ file_path.

Definition read_file (file_path : pystr) : M pystr :=
  try_except (read_file_try file_path)
    [ (ExceptClass FileNotFoundError,
       fun _ => ret (not_found_string file_path));
      (ExceptException, fun exc => ret (error_string exc)) ].

Definition wrote_string (content file_path : pystr) : pystr :=
  lit "Wrote " ++ str_of_N (len content) ++ lit " chars to " ++ file_path.

Definition write_file_try (file_path content : pystr) : M pystr :=
  let parent := dirname file_path in
  run _ <- (if truthy parent then os_makedirs parent else ret tt);
  run f <- open_w file_path;
  run _ <- f_write f content;
  ret (wrote_string content file_path).

Definition write_file (file_path content : pystr) : M pystr :=
  try_except (write_file_try file_path content)
    [ (ExceptException, fun exc => ret (error_string exc)) ].

(** Python's [<] on strings and on the sort key [(not e.is_dir(), e.name)]. *)
Fixpoint str_lt (a b : pystr) : bool :=
  match a, b with
  | _, [] => false
  | [], _ :: _ => true
  | x :: a', y :: b' => (x <? y) || ((x =? y) && str_lt a' b')
  end.

Definition sort_key (e : DirEntry) : bool * pystr :=
  (negb (is_dir e), name e).

Definition key_lt (k1 k2 : bool * pystr) : bool :=
  if eqb k1.1 k2.1 then str_lt k1.2 k2.2 else negb k1.1 && k2.1.

(** [sorted(entries, key=...)]: a stable sort that compares keys with [<]. *)
Fixpoint insert_entry (e : DirEntry) (l : list DirEntry) : list DirEntry :=
  match l with
  | [] => [e]
  | y :: ys =>
      if key_lt (sort_key y) (sort_key e) then y :: insert_entry e ys
      else e :: l
  end.

Definition sorted (l : list DirEntry) : list DirEntry :=
  foldr insert_entry [] l.

Definition entry_line (e : DirEntry) : pystr :=
  let tag := if is_dir e then lit "DIR " else lit "FILE" in
  let size :=
    if is_file e then lit " (" ++ str_of_N (st_size e) ++ lit " B)" else []
  in
  lit "[" ++ tag ++ lit "] " ++ name e ++ size.

(** What [list_files] returns for the sorted entries. *)
Definition listing (entries : list DirEntry) : pystr :=
  let lines := map entry_line entries in
  match lines with
  | [] => lit "(empty directory)"
  | _ => join [10] lines
  end.

Definition list_files_try (directory : pystr) : M pystr :=
  run scanned <- os_scandir directory;
  let entries := sorted scanned in
  ret (listing entries).

Definition list_files (directory : pystr) : M pystr :=
  try_except (list_files_try directory)
    [ (ExceptException, fun exc => ret (error_string exc)) ].

(** ** The WebSocket endpoint (main.py) *)

(** What [json.loads] returns. *)
#[local] Unset Elimination Schemes.
Inductive json :=
  | JNull
  | JBool (b : bool)
  | JInt (n : Z)
  | JFloat (text : pystr)
  | JString (s : pystr)
  | JArray (items : list json)
  | JObject (members : list (pystr * json)).
#[local] Set Elimination Schemes.

(** An inbound text frame, by what [json.loads] makes of it: a
    [JSONDecodeError] with its message, or a value. *)
Inductive frame :=
  | BadJSON (msg : pystr)
  | JSONText (v : json).

Definition json_loads (raw : frame) : result json :=
  match raw with
  | BadJSON msg => Raise (Exn JSONDecodeError msg)
  | JSONText v => Ok v
  end.

Definition type_name (v : json) : string :=
  match v with
  | JNull => "NoneType"
  | JBool _ => "bool"
  | JInt _ => "int"
  | JFloat _ => "float"
  | JString _ => "str"
  | JArray _ => "list"
  | JObject _ => "dict"
  end.

Definition no_attribute (v : json) (attr : string) : exn :=
  Exn AttributeError
    (lit "'" ++ lit (type_name v) ++ lit "' object has no attribute '"
       ++ lit attr ++ lit "'").

(** The members of an object in the order of the text; as in the [dict]
    built by [json.loads], the last of several equal keys wins. *)
Fixpoint dict_lookup (key : pystr) (members : list (pystr * json))
    : option json :=
  match members with
  | [] => None
  | (k, v) :: rest =>
      match dict_lookup key rest with
      | Some v' => Some v'
      | None => if bool_decide (k = key) then Some v else None
      end
  end.

(** [data.get(key, default)] *)
Definition get (data : json) (key : pystr) (default : json) : result json :=
  match data with
  | JObject members =>
      Ok (match dict_lookup key members with Some v => v | None => default end)
  | _ => Raise (no_attribute data "get")
  end.

(** [value.strip()] *)
Definition strip_method (value : json) : result pystr :=
  match value with
  | JString s => Ok (strip s)
  | _ => Raise (no_attribute value "strip")
  end.

Inductive message :=
  | HumanMessage (content : pystr)
  | AIMessage (content : pystr)
  | ToolMessage (content : pystr).

(** [chunk.content]: a string, or a list of content blocks. *)
Inductive chunk_content :=
  | ContentStr (s : pystr)
  | ContentList (blocks : list pystr).

(** A Python object as the endpoint looks at it: through [str()], and
    through [obj and "messages" in obj] followed by [obj["messages"]]. *)
Record pyobj :=
  { obj_str : pystr; obj_messages : option (list message) }.

(** An event of [agent.astream_events(..., version="v2")]: the value under
    ["event"], under ["name"] when there is one, and the entries of
    ["data"] the endpoint reads. *)
Record event := {
  ev_event : pystr;
  ev_name : option pystr;
  ev_chunk : option chunk_content;
  ev_input : option pyobj;
  ev_output : option pyobj
}.

(** One run of the agent: the events it yields, then the end of the
    stream or an exception. *)
Record agent_run := { run_events : list event; run_failure : option exn }.

(** The frames sent to the client, before [json.dumps]. *)
Inductive stream_event :=
  | token (content : pystr)
  | tool_start (tool input : pystr)
  | tool_end (tool output : pystr)
  | done
  | error (message : pystr).

Global Instance stream_event_eq_dec : EqDecision stream_event.
Proof. solve_decision. Defined.

(** The state of one connection: the local [history], the frames sent so
    far, and the client.  [peer] is [None] for a client that stays
    connected; [Some (S n)] for a client that takes [n] more frames and
    has gone by the next send; and [Some 0] once a send to it has failed,
    when the connection is closed on the server's side (the application
    state [DISCONNECTED] of Starlette's [WebSocket]). *)
Record conn := {
  history : list message;
  sent : list stream_event;
  peer : option nat
}.

(** What [send] raises on a connection that is closed on the server's
    side. *)
Definition send_after_close : exn :=
  Exn RuntimeError
    (lit "Cannot call " ++ [34] ++ lit "send" ++ [34]
       ++ lit " once a close message has been sent.").

(** [await websocket.send_text(json.dumps(ev))], as [WebSocket.send] of
    Starlette has it: the send that finds the client gone closes the
    connection and raises [WebSocketDisconnect]; every send after that
    raises [RuntimeError]. *)
Definition send_text (ev : stream_event) : ST conn unit :=
  fun c =>
    match peer c with
    | Some O => (Raise send_after_close, c)
    | Some (S O) =>
        (Raise (Exn WebSocketDisconnect []),
         {| history := history c; sent := sent c; peer := Some O |})
    | Some (S (S n)) =>
        (Ok tt, {| history := history c; sent := sent c ++ [ev];
                   peer := Some (S n) |})
    | None =>
        (Ok tt, {| history := history c; sent := sent c ++ [ev];
                   peer := None |})
    end.

Definition get_history : ST conn (list message) :=
  fun c => (Ok (history c), c).

Definition with_history (h : list message) (c : conn) : conn :=
  {| history := h; sent := sent c; peer := peer c |}.

Definition set_history (h : list message) : ST conn unit :=
  fun c => (Ok tt, with_history h c).

(** [d[key]] *)
Definition item {A} (field : option A) (key : string) : ST conn A :=
  match field with
  | Some v => ret v
  | None => raise (Exn KeyError (repr (lit key)))
  end.

(** The body of the [async for] loop. *)
Definition on_event (ev : event) : ST conn unit :=
  let kind := ev_event ev in
  if bool_decide (kind = lit "on_chat_model_stream") then
    run content <- item (ev_chunk ev) "chunk";
    match content with
    | ContentStr s => if truthy s then send_text (token s) else ret tt
    | ContentList _ => ret tt
    end
  else if bool_decide (kind = lit "on_tool_start") then
    let tool_input :=
      match ev_input ev with Some o => obj_str o | None => lit "{}" end in
    run tool <- item (ev_name ev) "name";
    send_text (tool_start tool (slice_to 400 tool_input))
  else if bool_decide (kind = lit "on_tool_end") then
    let tool_output :=
      match ev_output ev with Some o => obj_str o | None => [] end in
    run tool <- item (ev_name ev) "name";
    send_text (tool_end tool (slice_to 600 tool_output))
  else if bool_decide (kind = lit "on_chain_end")
          && bool_decide (ev_name ev = Some (lit "LangGraph")) then
    match ev_output ev with
    | Some o =>
        match obj_messages o with
        | Some ms => set_history ms
        | None => ret tt
        end
    | None => ret tt
    end
  else ret tt.

Fixpoint for_each (events : list event) : ST conn unit :=
  match events with
  | [] => ret tt
  | ev :: rest => run _ <- on_event ev; for_each rest
  end.

(** [async for event in agent.astream_events(...): ...] *)
Definition async_for (r : agent_run) : ST conn unit :=
  run _ <- for_each (run_events r);
  match run_failure r with
  | Some e => raise e
  | None => ret tt
  end.

(** Which way one iteration of [while True] went: [continue], or to the end
    of the body. *)
Inductive iteration := Skipped | Served.

Section Endpoint.

(** The agent built at start-up, as a function of the conversation it is
    given, and [traceback.format_exc()] as a function of the exception
    being handled. *)
Variable agent : list message -> agent_run.
Variable format_exc : exn -> pystr.

(** The inner [try] of the loop: one turn. *)
Definition turn : ST conn unit :=
  try_except
    (run h <- get_history;
     run _ <- async_for (agent h);
     send_text done)
    [ (ExceptException,
       fun exc =>
         run _ <- send_text (error (slice_to 600 (format_exc exc)));
         send_text done) ].

(** The body of [while True], from the frame [receive_text] returned. *)
Definition loop_body (raw : frame) : ST conn iteration :=
  run data <- lift (json_loads raw);
  run value <- lift (get data (lit "message") (JString []));
  run user_text <- lift (strip_method value);
  if negb (truthy user_text) then ret Skipped
  else
    run h <- get_history;
    run _ <- set_history (h ++ [HumanMessage user_text]);
    run _ <- turn;
    ret Served.

(** [while True] over the frames the client sends before it disconnects,
    when [receive_text] raises [WebSocketDisconnect]. *)
Fixpoint serve (frames : list frame) : ST conn unit :=
  match frames with
  | [] => raise (Exn WebSocketDisconnect [])
  | raw :: rest => run _ <- loop_body raw; serve rest
  end.

Definition websocket_endpoint (frames : list frame) : ST conn unit :=
  try_except (serve frames)
    [ (ExceptClass WebSocketDisconnect, fun _ => ret tt) ].

End Endpoint.

(** The connection as [websocket_endpoint] starts, [history = []], with a
    client that stays. *)
Definition accepted : conn := {| history := []; sent := []; peer := None |}.

(** ** Vocabulary of the properties *)

(** The frames one turn sends, from the connection state it starts in. *)
Definition turn_events (agent : list message -> agent_run)
    (format_exc : exn -> pystr) (c : conn) : list stream_event :=
  drop (length (sent c)) (sent (turn agent format_exc c).2).

(** The frames the loop body of [async for] may send: a token with text,
    or the start or end of a tool call. *)
Definition progress_event (ev : stream_event) : Prop :=
  match ev with
  | token content => content <> []
  | tool_start _ _ | tool_end _ _ => True
  | done | error _ => False
  end.

(** A machine to run the examples on: an empty temporary directory
    [/tmp], and an interpreter that prints ["4"]. *)
Definition example_world : world :=
  {| fs := {[ [lit "tmp"] := Dir ]};
     cwd := [];
     tmpdir := lit "/tmp";
     tmp_seed := 0;
     python := fun _ f =>
       (Ok {| returncode := 0; stdout := lit "4" ++ [10]; stderr := [] |},
        f) |}.

(** An agent that answers ["4"] in two chunks, and a traceback that is
    the message of the exception. *)
Definition example_agent (h : list message) : agent_run :=
  {| run_events :=
       [ {| ev_event := lit "on_chat_model_stream"; ev_name := None;
            ev_chunk := Some (ContentStr []); ev_input := None;
            ev_output := None |};
         {| ev_event := lit "on_chat_model_stream"; ev_name := None;
            ev_chunk := Some (ContentStr (lit "4")); ev_input := None;
            ev_output := None |} ];
     run_failure := None |}.

Definition example_format_exc (e : exn) : pystr :=
  lit "Traceback (most recent call last):" ++ [10] ++ exn_str e.

(** A machine with a directory [proj] that holds the example's entries,
    and a file further down that is no immediate child. *)
Definition project_world : world :=
  {| fs := list_to_map
             [ ([lit "proj"], Dir);
               ([lit "proj"; lit "b"], Dir);
               ([lit "proj"; lit "a"], Dir);
               ([lit "proj"; lit "a"; lit "deep.txt"], File (lit "deep"));
               ([lit "proj"; lit "z.txt"], File (lit "zz"));
               ([lit "proj"; lit "y.txt"], File (lit "y")) ];
     cwd := [];
     tmpdir := lit "/tmp";
     tmp_seed := 0;
     python := fun _ f => (Raise (Exn TimeoutExpired []), f) |}.

(** The directory of the specification's example, in the order given
    there; the two files hold any bytes. *)
Definition example_entries (data_z data_y : list N) : list DirEntry :=
  [ {| name := lit "b"; entry_node := Dir |};
    {| name := lit "a"; entry_node := Dir |};
    {| name := lit "z.txt"; entry_node := File data_z |};
    {| name := lit "y.txt"; entry_node := File data_y |} ].

(** A path that leads nowhere: a component on the way, or the last one, is
    missing. *)
Definition nonexistent (w : world) (p : pystr) : Prop :=
  match resolve w p with
  | Ok l => node_at (fs w) l = None
  | Raise e => exn_class_of e = FileNotFoundError
  end.

(** A path [repr] shows as it is written, between apostrophes: printable
    ASCII characters other than the apostrophe and the backslash. *)
Definition unescaped (p : pystr) : Prop :=
  Forall (fun c => 32 <= c /\ c < 127 /\ c <> 39 /\ c <> 92) p.

(** What the [except] clauses of [execute_python] return. *)
Definition failure_string (exc : exn) : pystr :=
  if bool_decide (exn_class_of exc = TimeoutExpired)
  then lit "Error: execution timed out (30 s limit)"
  else error_string exc.

(** What [execute_python] returns for a child that has run. *)
Definition completed_string (result : CompletedProcess) : pystr :=
  if (returncode result =? 0)%Z
  then str_or (strip (stdout result)) (lit "(no output)")
  else lit "Exit " ++ str_of_Z (returncode result) ++ lit ":" ++ [10]
         ++ strip (stderr result).

Definition run_string (r : result CompletedProcess) : pystr :=
  match r with
  | Ok result => completed_string result
  | Raise exc => failure_string exc
  end.

(** The name [NamedTemporaryFile] draws in [w]. *)
Definition scratch_path (w : world) : pystr :=
  tmpdir w ++ lit "/" ++ tmp_name (tmp_seed w).

(** [a <= b] on sort keys and on entries: not [b < a]. *)
Definition entry_le (a b : DirEntry) : Prop :=
  key_lt (sort_key b) (sort_key a) = false.

(** Directories come before everything else, and within each of the two
    groups names do not decrease. *)
Definition dirs_first_then_by_name (l : list DirEntry) : Prop :=
  forall (i j : nat) x y, (i < j)%nat -> l !! i = Some x -> l !! j = Some y ->
    (is_dir y = true -> is_dir x = true) /\
    (is_dir x = is_dir y -> str_lt (name y) (name x) = false).

(** The write succeeds: the [try] suite of [write_file] reaches its
    [return]. *)
Definition write_succeeds (w : world) (file_path content : pystr) : Prop :=
  exists s, (write_file_try file_path content w).1 = Ok s.

(** The bytes of the regular file [p] leads to. *)
Definition file_bytes (w : world) (p : pystr) : option (list N) :=
  match resolve w p with
  | Ok l =>
      match node_at (fs w) l with
      | Some (File data) => Some data
      | _ => None
      end
  | Raise _ => None
  end.

(** ** Vocabulary of the code-execution tool *)


(** The child [execute_python code] starts from [w]: the scratch path,
    what [subprocess.run] returns or raises, and the machine when the
    child has ended.  There is none when the scratch file could not be
    made or the script could not be written. *)
Definition child_run (w : world) (code : pystr)
    : option (pystr * result CompletedProcess * world) :=
  match NamedTemporaryFile w with
  | (Ok f, w1) =>
      match f_write f.2 code w1 with
      | (Ok _, w2) =>
          match subprocess_run f.1 w2 with
          | (r, w3) => Some (f.1, r, w3)
          end
      | (Raise _, _) => None
      end
  | (Raise _, _) => None
  end.


(** A script that puts a directory in its own place, and a machine whose
    interpreter runs it: the script exits with code 0 and prints
    nothing; any other script does nothing. *)
Definition self_replacing_script : pystr :=
  lit "import os, sys" ++ [10] ++ lit "os.unlink(sys.argv[0])" ++ [10]
    ++ lit "os.mkdir(sys.argv[0])".

Definition self_replacing_world : world :=
  {| fs := {[ [lit "tmp"] := Dir ]};
     cwd := [];
     tmpdir := lit "/tmp";
     tmp_seed := 0;
     python := fun path f =>
       (Ok {| returncode := 0; stdout := []; stderr := [] |},
        match walk f path [] (split_on 47 path) with
        | Ok l =>
            if bool_decide (f !! l = Some (File self_replacing_script))
            then <[l := Dir]> f
            else f
        | Raise _ => f
        end) |}.

(** ** Vocabulary of the further properties *)

(** The previews of a frame fit the slices of the endpoint: 400 characters
    of tool input, 600 of tool output and of a traceback. *)
Definition frame_bounded (ev : stream_event) : Prop :=
  match ev with
  | tool_start _ input => len input <= 400
  | tool_end _ output => len output <= 600
  | error message => len message <= 600
  | token _ | done => True
  end.

(** A frame the loop skips: a JSON object without a message, or whose
    message is a string with nothing but white space. *)
Definition blank_frame (raw : frame) : bool :=
  match raw with
  | JSONText (JObject members) =>
      match dict_lookup (lit "message") members with
      | None => true
      | Some (JString s) => negb (truthy (strip s))
      | Some _ => false
      end
  | _ => false
  end.

(** A frame of the protocol: a JSON object whose message, if there is one,
    is a string. *)
Definition protocol_frame (raw : frame) : bool :=
  match raw with
  | JSONText (JObject members) =>
      match dict_lookup (lit "message") members with
      | None | Some (JString _) => true
      | Some _ => false
      end
  | _ => false
  end.

(** The connection with a client that stays. *)
Definition stays (c : conn) : conn :=
  {| history := history c; sent := sent c; peer := None |}.

(** The frames the [try] suite of a turn sends to a client that stays:
    those of the events and, when the agent's run ends normally,
    [done]. *)
Definition try_frames (agent : list message -> agent_run) (c : conn)
    : list stream_event :=
  drop (length (sent c))
    (sent ((run h <- get_history;
            run _ <- async_for (agent h);
            send_text done) (stays c)).2).

(** The connection with a client that takes [k - 1] more frames. *)
Definition limit (k : nat) (c : conn) : conn :=
  {| history := history c; sent := sent c; peer := Some k |}.

(** A computation run for a client that takes [n] more frames follows
    the run for a client that stays: it does the same while the frames
    it sends are at most [n], and otherwise stops at the send after the
    [n]-th, which raises [WebSocketDisconnect] and closes the
    connection. *)
Definition follows {A} (m : ST conn A) : Prop :=
  forall c n, peer c = Some (S n) ->
    exists out,
      peer (m (stays c)).2 = None /\
      sent (m (stays c)).2 = sent c ++ out /\
      if bool_decide (length out <= n)%nat
      then m c = ((m (stays c)).1,
                  limit (S (n - length out)) (m (stays c)).2)
      else exists h,
             m c = (Raise (Exn WebSocketDisconnect []),
                    {| history := h; sent := sent c ++ take n out;
                       peer := Some O |}).

(** A file name: one path component that is not empty, ["."] or [".."]. *)
Definition plain_name (name : pystr) : Prop :=
  name <> [] /\ (47 ∉ name) /\ name <> lit "." /\ name <> lit "..".

(** ** The smoke-test client (test_ws.py) *)

(** The client: the text accumulated in [full_response] and what it has
    printed. *)
Record client := { full_response : pystr; printed : pystr }.

(** [print(s)] and [print(s, end="")] *)
Definition print (s : pystr) (cl : client) : client :=
  {| full_response := full_response cl; printed := printed cl ++ s ++ [10] |}.

Definition print_no_end (s : pystr) (cl : client) : client :=
  {| full_response := full_response cl; printed := printed cl ++ s |}.

(** The [break] that ends the receive loop: on a [done] frame, on an
    [error] frame, or when nothing arrives for 60 s. *)
Inductive stop := Completed | Failed | TimedOut.

(** [while True] of [test], over the frames that arrive, each within the
    60 s of [asyncio.wait_for]; after the last one nothing arrives.  The
    frames are the server's, read back by [json.loads].  The result is the
    client, the way the loop ended and the frames left unread. *)
Fixpoint receive_loop (frames : list stream_event) (cl : client)
    : client * stop * list stream_event :=
  match frames with
  | [] => (print ([10] ++ lit "[timeout waiting for response]") cl,
           TimedOut, [])
  | token content :: rest =>
      receive_loop rest
        {| full_response := full_response cl ++ content;
           printed := printed (print_no_end content cl) |}
  | tool_start tool input :: rest =>
      receive_loop rest
        (print ([10] ++ lit "[TOOL START] " ++ tool ++ lit " | input: "
                  ++ slice_to 120 input) cl)
  | tool_end tool output :: rest =>
      receive_loop rest
        (print (lit "[TOOL END]   " ++ tool ++ lit " | output: "
                  ++ slice_to 120 output ++ [10]) cl)
  | done :: rest =>
      (print ([10; 10] ++ lit "--- Response complete ---") cl,
       Completed, rest)
  | error message :: rest =>
      (print ([10] ++ lit "[ERROR] " ++ message) cl, Failed, rest)
  end.


(** [test()] on a connection that is established, given the frames that
    arrive after its message. *)
Definition test (frames : list stream_event)
    : client * stop * list stream_event :=
  let cl :=
    print (lit "Message sent. Waiting for response..." ++ [10])
      (print (lit "WebSocket connected!" ++ [10])
         (print (lit "Connecting to ws://localhost:8000/ws/chat ...")
            {| full_response := []; printed := [] |})) in
  match receive_loop frames cl with
  | (cl', how, unread) =>
      (print ([10] ++ lit "Full response length: "
                ++ str_of_N (len (full_response cl')) ++ lit " chars") cl',
       how, unread)
  end.







(** * The model on concrete inputs *)

Example dirname_examples :
  dirname (lit "a/b/f.txt") = lit "a/b" /\
  dirname (lit "f.txt") = [] /\
  dirname (lit "/f.txt") = lit "/" /\
  dirname (lit "a//f.txt") = lit "a".
Proof. vm_compute. repeat split. Qed.

Example strip_examples :
  strip (lit "  2 + 2 " ++ [10]) = lit "2 + 2" /\ strip ([9; 32; 10]) = [].
Proof. vm_compute. repeat split. Qed.

Example utf8_examples :
  utf8_encode [0x41; 0xE9; 0x20AC; 0x1F600]
  = Ok [0x41; 0xC3; 0xA9; 0xE2; 0x82; 0xAC; 0xF0; 0x9F; 0x98; 0x80] /\
  utf8_decode [0x41; 0xC3; 0xA9; 0xE2; 0x82; 0xAC; 0xF0; 0x9F; 0x98; 0x80]
  = Ok [0x41; 0xE9; 0x20AC; 0x1F600] /\
  (exists e, utf8_decode [0xC0; 0x80] = Raise e) /\
  (exists e, utf8_decode [0xED; 0xA0; 0x80] = Raise e).
Proof. vm_compute. repeat split; eexists; reflexivity. Qed.

Example resolve_examples :
  resolve project_world (lit "proj//a/./deep.txt")
  = Ok [lit "proj"; lit "a"; lit "deep.txt"] /\
  resolve project_world (lit "/proj/a/../b") = Ok [lit "proj"; lit "b"] /\
  resolve project_world (lit "proj/z.txt/x") = Raise (ENOTDIR (lit "proj/z.txt/x")) /\
  resolve project_world (lit "nowhere/x") = Raise (ENOENT (lit "nowhere/x")).
Proof. vm_compute. repeat split. Qed.

(** Paths the system does not take: a lone surrogate is refused by the
    file-system encoding, before the NUL is looked for; the code points
    that stand for undecodable bytes pass. *)
Example path_converter_examples :
  resolve project_world [0xD800]
  = Raise (Exn UnicodeEncodeError
             (lit "'utf-8' codec can't encode character '\ud800' "
                ++ lit "in position 0: surrogates not allowed")) /\
  resolve project_world (lit "x" ++ [0xDC80; 0xD800; 0xD801] ++ lit "y")
  = Raise (Exn UnicodeEncodeError
             (lit "'utf-8' codec can't encode characters "
                ++ lit "in position 2-3: surrogates not allowed")) /\
  resolve project_world (lit "a" ++ [0; 0xD800])
  = Raise (Exn UnicodeEncodeError
             (lit "'utf-8' codec can't encode character '\ud800' "
                ++ lit "in position 2: surrogates not allowed")) /\
  resolve project_world (lit "a" ++ [0] ++ lit "b") = Raise null_byte /\
  resolve project_world (lit "proj/" ++ [0xDC80])
  = Ok [lit "proj"; [0xDC80]].
Proof. vm_compute. repeat split. Qed.

(** A send to a client that has gone, and the send after it. *)
Example send_text_examples :
  let c := {| history := []; sent := [token (lit "a")]; peer := Some 1%nat |} in
  send_text done c
  = (Raise (Exn WebSocketDisconnect []),
     {| history := []; sent := [token (lit "a")]; peer := Some 0%nat |}) /\
  (send_text done (send_text done c).2).1
  = Raise (Exn RuntimeError
             (lit "Cannot call " ++ [34] ++ lit "send" ++ [34]
                ++ lit " once a close message has been sent.")).
Proof. vm_compute. repeat split. Qed.

(** The three outcomes of the child: exit code 0, another exit code, and
    the 30 s time-out. *)
Example execute_python_examples :
  (execute_python (lit "print(2 + 2)") example_world).1 = Ok (lit "4") /\
  (execute_python (lit "raise SystemExit(3)")
     {| fs := fs example_world; cwd := []; tmpdir := lit "/tmp";
        tmp_seed := 7;
        python := fun _ f =>
          (Ok {| returncode := 3; stdout := [];
                 stderr := lit "boom" ++ [10] |}, f) |}).1
  = Ok (lit "Exit 3:" ++ [10] ++ lit "boom") /\
  (execute_python (lit "while True: pass")
     {| fs := fs example_world; cwd := []; tmpdir := lit "/tmp";
        tmp_seed := 7;
        python := fun _ f => (Raise (Exn TimeoutExpired []), f) |}).1
  = Ok (lit "Error: execution timed out (30 s limit)") /\
  (execute_python (lit "print(1)") project_world).1
  = Ok (lit "Error: [Errno 2] No such file or directory: '/tmp/tmp0.py'").
Proof. vm_compute. repeat split. Qed.

(** A blank frame, then a question: the blank frame is skipped, the
    question is answered by one token and [done], and the handler returns
    when the client disconnects. *)
Example websocket_endpoint_example :
  websocket_endpoint example_agent example_format_exc
    [ JSONText (JObject [(lit "message", JString (lit " "))]);
      JSONText (JObject [(lit "message", JString (lit "What is 2 + 2?"))]) ]
    accepted
  = (Ok tt,
     {| history := [HumanMessage (lit "What is 2 + 2?")];
        sent := [token (lit "4"); done];
        peer := None |}).
Proof. vm_compute. reflexivity. Qed.

(** An agent that fails after a tool call: the turn ends with [error] and
    [done]. *)
Example failing_turn_example :
  turn_events
    (fun _ =>
       {| run_events :=
            [ {| ev_event := lit "on_tool_start";
                 ev_name := Some (lit "read_file"); ev_chunk := None;
                 ev_input := None; ev_output := None |} ];
          run_failure := Some (Exn RuntimeError (lit "model unreachable")) |})
    example_format_exc accepted
  = [ tool_start (lit "read_file") (lit "{}");
      error (lit "Traceback (most recent call last):" ++ [10]
               ++ lit "model unreachable");
      done ].
Proof. vm_compute. reflexivity. Qed.

(** * Properties of the endpoint *)

Lemma send_text_sent ev c :
  (sent (send_text ev c).2 = sent c \/ sent (send_text ev c).2 = sent c ++ [ev])
  /\ (peer c = None ->
      send_text ev c
      = (Ok tt, {| history := history c; sent := sent c ++ [ev];
                   peer := None |})).
Proof.
  unfold send_text. destruct (peer c) as [[|[|n]]|]; simpl; split; auto; done.
Qed.

Lemma on_event_sent ev c :
  exists out,
    sent (on_event ev c).2 = sent c ++ out /\ Forall progress_event out /\
    (peer c = None -> peer (on_event ev c).2 = None).
Proof.
  destruct ev as [kind nm chunk input output].
  unfold on_event, item, mbind, set_history, with_history, ret, raise; simpl.
  destruct chunk as [[[|ch s]|blocks]|], nm as [tool|],
    input as [[istr imsgs]|], output as [[ostr [msgs|]]|];
    repeat case_bool_decide; simpl; unfold send_text;
    destruct (peer c) as [[|[|n]]|] eqn:Hpeer; simpl; rewrite ?Hpeer;
    first
      [ exists []; split; [by rewrite app_nil_r |];
        split; [by constructor | done]
      | eexists [_]; split; [reflexivity |];
        split; [by repeat constructor | done] ].
Qed.

Lemma for_each_sent events c :
  exists out,
    sent (for_each events c).2 = sent c ++ out /\ Forall progress_event out /\
    (peer c = None -> peer (for_each events c).2 = None).
Proof.
  revert c; induction events as [|ev rest IH]; intros c; simpl.
  - exists []; split; [by rewrite app_nil_r |]. split; [constructor | done].
  - unfold mbind.
    destruct (on_event_sent ev c) as (out1 & E1 & P1 & Q1).
    destruct (on_event ev c) as [[[]|e] c1] eqn:Eev; simpl in *.
    + destruct (IH c1) as (out2 & E2 & P2 & Q2).
      exists (out1 ++ out2); split; [by rewrite E2, E1, app_assoc |].
      split; [by apply Forall_app |].
      intros Hc. by apply Q2, Q1.
    + by exists out1.
Qed.

(** What a turn sends: frames of its events, then none, one or both of an
    [error] frame and [done]. *)
Lemma turn_sent_general agent format_exc c :
  exists pre tail,
    sent (turn agent format_exc c).2 = sent c ++ pre ++ tail /\
    Forall progress_event pre /\
    Forall (fun ev => ev = done \/ exists m, ev = error m) tail.
Proof.
  unfold turn, try_except, mbind, get_history, async_for, mbind. simpl.
  destruct (for_each_sent (run_events (agent (history c))) c)
    as (pre & E & P & _).
  exists pre.
  destruct (for_each _ c) as [[[]|e] c1] eqn:Efe; simpl in *;
    [destruct (run_failure _) as [e|]; simpl |];
    unfold send_text, mbind;
    destruct (peer c1) as [[|[|[|n]]]|] eqn:Hpeer; simpl;
    rewrite ?Hpeer; simpl; rewrite E, <- ?app_assoc;
    first
      [ exists []; split; [by rewrite ?app_nil_r |]; split; [done |];
        by constructor
      | eexists [_]; split; [reflexivity |]; split; [done |];
        repeat constructor; by eauto
      | eexists [_; _]; split; [reflexivity |]; split; [done |];
        repeat constructor; by eauto ].
Qed.

(** With a client that stays, a turn sends the frames of its events, then
    [done], or an [error] frame and [done]; no exception leaves it. *)
Lemma turn_shape agent format_exc c :
  peer c = None ->
  exists out,
    Forall progress_event out /\
    (turn agent format_exc c).1 = Ok tt /\
    peer (turn agent format_exc c).2 = None /\
    (turn_events agent format_exc c = out ++ [done] \/
     exists m, turn_events agent format_exc c = out ++ [error m; done]).
Proof.
  intros Hopen.
  unfold turn_events, turn, try_except, mbind, get_history, async_for, mbind.
  simpl.
  destruct (for_each_sent (run_events (agent (history c))) c)
    as (out & E & P & Q).
  specialize (Q Hopen).
  exists out; split; [done |].
  destruct (for_each _ c) as [[[]|e] c1] eqn:Efe; simpl in *;
    [destruct (run_failure _) as [e|]; simpl |];
    unfold send_text, mbind; rewrite Q; simpl;
    rewrite E, <- !app_assoc, drop_app_length; simpl; eauto.
Qed.

Lemma turn_sent agent format_exc c :
  sent (turn agent format_exc c).2 = sent c ++ turn_events agent format_exc c.
Proof.
  unfold turn_events.
  destruct (turn_sent_general agent format_exc c) as (pre & tail & -> & _).
  by rewrite drop_app_length.
Qed.

Lemma progress_no_done out :
  Forall progress_event out -> count_occ stream_event_eq_dec out done = 0%nat.
Proof.
  induction 1 as [|ev out Hev _ IH]; [done |].
  simpl. destruct (stream_event_eq_dec ev done) as [->|]; [done | exact IH].
Qed.

Lemma progress_no_error out i m :
  Forall progress_event out -> out !! i <> Some (error m).
Proof.
  intros Hall Hi. apply (Forall_lookup_1 _ _ _ _ Hall) in Hi. exact Hi.
Qed.

(** A frame whose message has text starts a turn: the stripped text is
    appended to the history as a [HumanMessage] and the turn runs on that
    history. *)
Lemma message_starts_turn agent format_exc members s c :
  peer c = None ->
  dict_lookup (lit "message") members = Some (JString s) ->
  strip s <> [] ->
  loop_body agent format_exc (JSONText (JObject members)) c
  = (Ok Served,
     (turn agent format_exc
        (with_history (history c ++ [HumanMessage (strip s)]) c)).2).
Proof.
  intros Hopen Hmsg Htext. unfold loop_body, mbind, lift; simpl.
  rewrite Hmsg. simpl.
  destruct (strip s) as [|ch text] eqn:Hs; [done |]. simpl.
  destruct (turn_shape agent format_exc
              (with_history (history c ++ [HumanMessage (ch :: text)]) c)
              Hopen) as (_ & _ & Hok & _).
  destruct (turn agent format_exc _) as [[[]|e] c']; simpl in *; done.
Qed.

(** C2: on a connection whose client stays, the frames sent for a turn
    contain exactly one [done], [done] is the last of them, and an [error]
    frame is immediately followed by [done].  The frames are appended to
    what the connection had sent, and no exception leaves the turn.  Every
    frame whose message has text starts such a turn. *)
Theorem turn_sends_exactly_one_done agent format_exc c :
  peer c = None ->
  let out := turn_events agent format_exc c in
  (turn agent format_exc c).1 = Ok tt /\
  sent (turn agent format_exc c).2 = sent c ++ out /\
  count_occ stream_event_eq_dec out done = 1%nat /\
  last out = Some done /\
  (forall i m, out !! i = Some (error m) -> out !! S i = Some done) /\
  (forall members s c0,
     peer c0 = None ->
     dict_lookup (lit "message") members = Some (JString s) ->
     strip s <> [] ->
     loop_body agent format_exc (JSONText (JObject members)) c0
     = (Ok Served,
        (turn agent format_exc
           (with_history (history c0 ++ [HumanMessage (strip s)]) c0)).2)).
Proof.
  intros Hopen out. subst out.
  destruct (turn_shape agent format_exc c Hopen)
    as (pre & Hpre & Hok & _ & Hshape).
  split; [exact Hok |]. split; [apply turn_sent |].
  pose proof (progress_no_done pre Hpre) as Hcount.
  assert (forall tail,
            last (pre ++ tail ++ [done]) = Some done) as Hlast.
  { intros tail. by rewrite !app_assoc, last_snoc. }
  destruct Hshape as [-> | [m0 ->]].
  - split; [| split; [| split]].
    + rewrite count_occ_app, Hcount. simpl.
      by destruct (stream_event_eq_dec done done).
    + apply (Hlast []).
    + intros i m Hi. apply lookup_app_Some in Hi as [Hi | [_ Hi]].
      * by apply progress_no_error in Hi.
      * destruct (i - length pre)%nat; simpl in Hi; [done |].
        by rewrite lookup_nil in Hi.
    + intros members s c0. apply message_starts_turn.
  - split; [| split; [| split]].
    + rewrite count_occ_app, Hcount. simpl.
      destruct (stream_event_eq_dec (error m0) done); [done |].
      by destruct (stream_event_eq_dec done done).
    + apply (Hlast [error m0]).
    + intros i m Hi. apply lookup_app_Some in Hi as [Hi | [Hle Hi]].
      * by apply progress_no_error in Hi.
      * destruct (i - length pre)%nat as [|[|k]] eqn:Ek; simpl in Hi;
          try done.
        replace (S i) with (length pre + 1)%nat by lia.
        by rewrite lookup_app_r, Nat.add_comm, Nat.add_sub by lia.
    + intros members s c0. apply message_starts_turn.
Qed.

Lemma turn_sends_exactly_one_done_witness :
  peer accepted = None /\
  turn_events example_agent example_format_exc accepted
  = [token (lit "4"); done] /\
  last (turn_events example_agent example_format_exc accepted) = Some done.
Proof.
  split; [reflexivity |]. split; [vm_compute; reflexivity |].
  exact (proj1 (proj2 (proj2 (proj2
    (turn_sends_exactly_one_done example_agent example_format_exc accepted
       eq_refl))))).
Defined.

(** C10: every [token] frame of a turn carries a non-empty string; a model
    chunk whose content is the empty string, or a list of blocks, sends no
    frame at all, while a chunk with text sends that text (to a client
    that is there). *)
Theorem token_events_carry_text agent format_exc c :
  Forall (fun ev => match ev with token content => content <> [] | _ => True end)
    (turn_events agent format_exc c) /\
  (forall nm input output blocks c0,
     on_event {| ev_event := lit "on_chat_model_stream"; ev_name := nm;
                 ev_chunk := Some (ContentStr []); ev_input := input;
                 ev_output := output |} c0 = (Ok tt, c0) /\
     on_event {| ev_event := lit "on_chat_model_stream"; ev_name := nm;
                 ev_chunk := Some (ContentList blocks); ev_input := input;
                 ev_output := output |} c0 = (Ok tt, c0)) /\
  (forall nm input output ch s c0,
     peer c0 = None ->
     on_event {| ev_event := lit "on_chat_model_stream"; ev_name := nm;
                 ev_chunk := Some (ContentStr (ch :: s)); ev_input := input;
                 ev_output := output |} c0
     = (Ok tt, {| history := history c0;
                  sent := sent c0 ++ [token (ch :: s)];
                  peer := None |})).
Proof.
  split; [| split].
  - unfold turn_events.
    destruct (turn_sent_general agent format_exc c)
      as (pre & tail & -> & Hpre & Htail).
    rewrite drop_app_length. apply Forall_app. split.
    + eapply Forall_impl; [exact Hpre |]. by intros [].
    + eapply Forall_impl; [exact Htail |]. by intros ? [-> | [? ->]].
  - intros nm input output blocks c0. by split.
  - intros nm input output ch s c0 Hopen.
    unfold on_event, item, mbind, ret; simpl.
    by destruct (send_text_sent (token (ch :: s)) c0) as [_ ->].
Qed.

(** X2: the frames the loop does ignore: a JSON object without a
    ["message"] member, or whose message is a string that is empty after
    [strip()].
    The iteration ends in [continue]: nothing is appended to the history,
    nothing is sent, and the loop goes on to the next frame. *)
Lemma blank_message_skipped agent format_exc members c :
  match dict_lookup (lit "message") members with
  | None => True
  | Some (JString s) => strip s = []
  | Some _ => False
  end ->
  loop_body agent format_exc (JSONText (JObject members)) c = (Ok Skipped, c).
Proof.
  unfold loop_body, mbind, lift; simpl.
  destruct (dict_lookup _ members) as [[]|]; simpl; try done.
  all: by intros ->.
Qed.

Lemma blank_message_skipped_witness :
  loop_body example_agent example_format_exc
    (JSONText (JObject [(lit "message", JString (lit "  "))])) accepted
  = (Ok Skipped, accepted).
Proof.
  apply (blank_message_skipped example_agent example_format_exc
           [(lit "message", JString (lit "  "))] accepted).
  vm_compute. reflexivity.
Defined.

Lemma blank_message_next_frame agent format_exc members rest c :
  loop_body agent format_exc (JSONText (JObject members)) c = (Ok Skipped, c) ->
  serve agent format_exc (JSONText (JObject members) :: rest) c
  = serve agent format_exc rest c.
Proof. intros H. simpl. unfold mbind. by rewrite H. Qed.

(** C3, where the code departs from it: a frame that is not JSON, a JSON
    value that is not an object, and an object whose ["message"] is not a
    string are not ignored.  [json.loads], [data.get] or [.strip()] raises
    outside the inner [try]; the exception is no [WebSocketDisconnect], so
    it leaves [websocket_endpoint]: the frames that follow are never read.
    Nothing is sent and the history is unchanged. *)
Theorem malformed_frame_ends_connection agent format_exc rest c :
  (forall msg,
     websocket_endpoint agent format_exc (BadJSON msg :: rest) c
     = (Raise (Exn JSONDecodeError msg), c)) /\
  (forall items,
     websocket_endpoint agent format_exc (JSONText (JArray items) :: rest) c
     = (Raise (no_attribute (JArray items) "get"), c)) /\
  (forall n,
     websocket_endpoint agent format_exc
       (JSONText (JObject [(lit "message", JInt n)]) :: rest) c
     = (Raise (no_attribute (JInt n) "strip"), c)) /\
  websocket_endpoint agent format_exc
    (JSONText (JObject [(lit "message", JNull)]) :: rest) c
  = (Raise (no_attribute JNull "strip"), c).
Proof. repeat split. Qed.

(** * Properties of the operating-system model *)

Lemma node_at_insert_file f l d cur :
  l <> [] -> f !! l <> Some Dir ->
  node_at f cur = Some Dir ->
  node_at (<[l := File d]> f) cur = Some Dir.
Proof.
  intros Hl Hnd. destruct cur as [|c cur]; [done |]. simpl.
  intros Hcur. rewrite lookup_insert_ne; [done |].
  intros Heq. subst l. congruence.
Qed.

(** Creating or rewriting a regular file does not change where a path
    leads. *)
Lemma walk_insert_file f l d p comps cur r :
  l <> [] -> f !! l <> Some Dir ->
  walk f p cur comps = Ok r ->
  walk (<[l := File d]> f) p cur comps = Ok r.
Proof.
  intros Hl Hnd. revert cur.
  induction comps as [|c rest IH]; intros cur; simpl; [done |].
  destruct (node_at f cur) as [[]|] eqn:Hcur; try done.
  rewrite (node_at_insert_file f l d cur Hl Hnd Hcur).
  repeat case_bool_decide; apply IH.
Qed.

Lemma resolve_insert_file w l d p r :
  l <> [] -> fs w !! l <> Some Dir ->
  resolve w p = Ok r ->
  resolve (set_fs w (<[l := File d]> (fs w))) p = Ok r.
Proof.
  intros Hl Hnd. unfold resolve.
  destruct (path_converter p) as [[]|]; [| done].
  destruct p as [|c p]; [done |]. simpl.
  by apply walk_insert_file.
Qed.

Lemma node_at_nonempty f (l : list pystr) : l <> [] -> node_at f l = f !! l.
Proof. by destruct l. Qed.

(** * Reading files that are not there *)

Lemma is_prefix_refl p : is_prefix p p = true.
Proof. unfold is_prefix. rewrite firstn_all. by apply bool_decide_eq_true. Qed.

Lemma is_prefix_app p s : is_prefix p (p ++ s) = true.
Proof.
  unfold is_prefix. apply bool_decide_eq_true. by rewrite take_app_length.
Qed.

Lemma contains_mid pre p post : contains (pre ++ p ++ post) p = true.
Proof.
  induction pre as [|c pre IH]; simpl.
  - pose proof (is_prefix_app p post) as Hp.
    destruct (p ++ post); cbn [contains]; by rewrite Hp.
  - cbn [contains]. by rewrite IH, orb_true_r.
Qed.

Lemma contains_app pre p : contains (pre ++ p) p = true.
Proof. rewrite <- (app_nil_r p) at 1. apply contains_mid. Qed.

Lemma repr_unescaped p : unescaped p -> repr p = [39] ++ p ++ [39].
Proof.
  intros Hp. unfold repr.
  assert (39 ∉ p) as Hquote.
  { intros Hin. pose proof (proj1 (Forall_forall _ _) Hp _ Hin) as Hc.
    by destruct Hc as (_ & _ & ? & _). }
  rewrite (bool_decide_eq_false_2 _ Hquote). simpl. f_equal. f_equal.
  clear Hquote. induction Hp as [|c p (H32 & H127 & H39 & H92) _ IH];
    [done |].
  simpl. rewrite IH. unfold repr_char.
  destruct (N.eqb_spec c 92); [done |].
  destruct (N.eqb_spec c 39); [done |].
  destruct (N.eqb_spec c 9); [lia |].
  destruct (N.eqb_spec c 10); [lia |].
  destruct (N.eqb_spec c 13); [lia |].
  destruct (N.ltb_spec c 32); [lia |].
  destruct (N.eqb_spec c 127); [lia |].
  done.
Qed.

(** The exceptions of path resolution past the path converter. *)
Lemma walk_raises f p cur comps e :
  walk f p cur comps = Raise e -> e = ENOTDIR p \/ e = ENOENT p.
Proof.
  revert cur. induction comps as [|c rest IH]; intros cur; simpl; [done |].
  destruct (node_at f cur) as [[]|];
    [by intros [= <-]; left | | by intros [= <-]; left
     | by intros [= <-]; right].
  repeat case_bool_decide; apply IH.
Qed.

Lemma fsencode_unescaped p pos : unescaped p -> fsencode_from pos p = Ok tt.
Proof.
  intros Hp. revert pos.
  induction Hp as [|c p (H32 & H127 & _) _ IH]; intros pos; [done |].
  simpl. unfold fs_encodable, encodable, is_surrogate.
  destruct (N.leb_spec 0xD800 c); [lia |].
  destruct (N.ltb_spec c 0x110000); [| lia]. simpl. apply IH.
Qed.

Lemma path_converter_unescaped p : unescaped p -> path_converter p = Ok tt.
Proof.
  intros Hp. unfold path_converter. rewrite fsencode_unescaped by done.
  rewrite bool_decide_eq_false_2; [done |].
  intros Hin. pose proof (proj1 (Forall_forall _ _) Hp _ Hin) as Hc.
  destruct Hc as (? & _). lia.
Qed.

(** What [open(file_path, "r")] raises for a path that leads to no
    regular file. *)
Lemma open_failure w file_path :
  file_bytes w file_path = None ->
  exists e,
    os_read_bytes file_path w = (Raise e, w) /\
    (nonexistent w file_path -> exn_class_of e = FileNotFoundError) /\
    (unescaped file_path ->
     exists errno strerror c,
       e = Exn c (lit "[Errno " ++ str_of_N errno ++ lit "] " ++ lit strerror
                    ++ lit ": " ++ [39] ++ file_path ++ [39])).
Proof.
  unfold file_bytes, nonexistent, os_read_bytes. intros Hnone.
  destruct (resolve w file_path) as [l|e] eqn:Hres.
  - destruct (node_at (fs w) l) as [[data| |]|]; [done | | |];
      eexists; (split; [reflexivity |]); (split; [done |]);
      intros Hp; unfold EISDIR, ENXIO, ENOENT, os_error;
      rewrite (repr_unescaped _ Hp); eauto.
  - exists e. split; [done |]. split; [done |].
    intros Hp. unfold resolve in Hres.
    rewrite (path_converter_unescaped _ Hp) in Hres.
    destruct file_path as [|c p]; [injection Hres as <- |].
    + unfold ENOENT, os_error. rewrite (repr_unescaped _ Hp). eauto.
    + apply walk_raises in Hres as [-> | ->];
        unfold ENOTDIR, ENOENT, os_error;
        rewrite (repr_unescaped _ Hp); eauto.
Qed.

(** C8, as the code has it: for every path that leads to no regular file
    the tool returns a string that starts with ["Error: "], does not
    raise and leaves the machine as it is.  The string is the not-found
    string, which contains the path, when the path does not exist; and it
    contains the path whenever [repr] shows the path as it is written
    (printable ASCII without apostrophe and backslash). *)
Theorem read_missing_path w file_path :
  file_bytes w file_path = None ->
  exists s,
    read_file file_path w = (Ok s, w) /\
    is_prefix (lit "Error: ") s = true /\
    (nonexistent w file_path ->
     s = not_found_string file_path /\ contains s file_path = true) /\
    (unescaped file_path -> contains s file_path = true).
Proof.
  intros Hnone.
  destruct (open_failure w file_path Hnone) as (e & Hopen & Hmissing & Hrepr).
  assert (contains (not_found_string file_path) file_path = true) as Hnf.
  { unfold not_found_string. rewrite !app_assoc. apply contains_app. }
  unfold read_file, try_except, read_file_try, read_text, mbind.
  rewrite Hopen. simpl. unfold ret. case_bool_decide as Hclass; simpl.
  - exists (not_found_string file_path). split; [done |]. split.
    + unfold not_found_string.
      change (lit "Error: file not found ")
        with (lit "Error: " ++ lit "file not found ").
      rewrite <- !app_assoc. apply is_prefix_app.
    + split; [done |]. by intros _.
  - exists (error_string e). split; [done |]. split.
    + apply is_prefix_app.
    + split; [intros Hm; by destruct Hclass; apply Hmissing |].
      intros Hp. destruct (Hrepr Hp) as (errno & strerror & c & ->).
      unfold error_string. cbn [exn_str].
      rewrite !app_assoc. rewrite <- (app_assoc _ file_path [39]).
      apply contains_mid.
Qed.

Lemma read_missing_path_witness :
  file_bytes project_world (lit "proj/z.txt/x") = None /\
  file_bytes project_world (lit "notes/todo.txt") = None /\
  (read_file (lit "proj/z.txt/x") project_world).1
  = Ok (lit "Error: [Errno 20] Not a directory: 'proj/z.txt/x'") /\
  (read_file (lit "notes/todo.txt") project_world).1
  = Ok (not_found_string (lit "notes/todo.txt")) /\
  exists s,
    read_file (lit "proj/z.txt/x") project_world = (Ok s, project_world) /\
    is_prefix (lit "Error: ") s = true /\
    (nonexistent project_world (lit "proj/z.txt/x") ->
     s = not_found_string (lit "proj/z.txt/x") /\
     contains s (lit "proj/z.txt/x") = true) /\
    (unescaped (lit "proj/z.txt/x") ->
     contains s (lit "proj/z.txt/x") = true).
Proof.
  assert (file_bytes project_world (lit "proj/z.txt/x") = None) as H
    by (vm_compute; reflexivity).
  split; [exact H |].
  split; [vm_compute; reflexivity |].
  split; [vm_compute; reflexivity |].
  split; [vm_compute; reflexivity |].
  exact (read_missing_path project_world (lit "proj/z.txt/x") H).
Defined.

(** C8 as it was stated fails where the exception does not show the path
    as it was written: a path with a NUL is refused before the system is
    asked, and the message of that [ValueError] names no path; a
    backslash in a path that runs through a regular file is shown
    doubled. *)
Lemma read_missing_path_counterexample :
  file_bytes project_world [97; 0; 98] = None /\
  read_file [97; 0; 98] project_world
  = (Ok (lit "Error: embedded null byte"), project_world) /\
  contains (lit "Error: embedded null byte") [97; 0; 98] = false /\
  file_bytes project_world (lit "proj/z.txt/a" ++ [92] ++ lit "b") = None /\
  (read_file (lit "proj/z.txt/a" ++ [92] ++ lit "b") project_world).1
  = Ok (lit "Error: [Errno 20] Not a directory: 'proj/z.txt/a"
          ++ [92; 92] ++ lit "b'") /\
  contains (lit "Error: [Errno 20] Not a directory: 'proj/z.txt/a"
              ++ [92; 92] ++ lit "b'")
    (lit "proj/z.txt/a" ++ [92] ++ lit "b") = false.
Proof. vm_compute. repeat split. Qed.

(** * The code-execution tool *)

Lemma NamedTemporaryFile_ok w path l w1 :
  NamedTemporaryFile w = (Ok (path, l), w1) ->
  path = scratch_path w /\
  resolve (next_seed w) path = Ok l /\
  fs w !! l = None /\ l <> [] /\
  w1 = set_fs (next_seed w) (<[l := File []]> (fs w)).
Proof.
  unfold NamedTemporaryFile, scratch_path.
  destruct (resolve (next_seed w) _) as [l0|e] eqn:Hres; [| done].
  destruct (node_at (fs (next_seed w)) l0) as [n|] eqn:Hnode; [done |].
  destruct (node_at (fs (next_seed w)) (removelast l0)) as [[]|]; try done.
  intros [= <- <- <-].
  assert (l0 <> []) as Hne by (intros ->; done).
  rewrite node_at_nonempty in Hnode by done.
  done.
Qed.

Lemma truthy_scratch_path w : truthy (scratch_path w) = true.
Proof.
  unfold scratch_path. destruct (tmpdir w); reflexivity.
Qed.





(** The [try] suite, by what the temporary file, the encoder and the
    child do. *)
Lemma execute_python_try_paths code w :
  match NamedTemporaryFile w with
  | (Raise e, w1) =>
      child_run w code = None /\
      execute_python_try code (w, None) = (Raise e, (w1, None))
  | (Ok (path, l), w1) =>
      match utf8_encode code with
      | Raise e =>
          child_run w code = None /\
          execute_python_try code (w, None) = (Raise e, (w1, None))
      | Ok bytes =>
          let w2 := set_fs w1 (<[l := File bytes]> (fs w1)) in
          let child := python w path (fs w2) in
          child_run w code = Some (path, child.1, set_fs w2 child.2) /\
          execute_python_try code (w, None)
          = (match child.1 with
             | Ok result => Ok (completed_string result)
             | Raise e => Raise e
             end, (set_fs w2 child.2, Some path))
      end
  end.
Proof.
  unfold child_run, execute_python_try, mbind, on_world, set_local. simpl.
  destruct (NamedTemporaryFile w) as [[[path l]|e] w1] eqn:Htmp; simpl;
    [| done].
  apply NamedTemporaryFile_ok in Htmp as (_ & _ & _ & _ & ->).
  unfold f_write.
  destruct (utf8_encode code) as [bytes|e]; simpl; [| done].
  unfold subprocess_run; simpl.
  destruct (python w path _) as [[result|e] f]; simpl; [| done].
  split; [done |].
  unfold completed_string, ret. by destruct (returncode result =? 0)%Z.
Qed.

(** The [finally] suite: it removes what [tmp_path] names, unless that
    is a directory, which [os.unlink] refuses. *)
Lemma execute_python_finally_cases w path :
  truthy path = true ->
  execute_python_finally (w, Some path)
  = match resolve w path with
    | Ok l =>
        match node_at (fs w) l with
        | Some Dir => (Raise (EISDIR path), (w, Some path))
        | Some _ => (Ok tt, (set_fs w (delete l (fs w)), Some path))
        | None => (Ok tt, (w, Some path))
        end
    | Raise _ => (Ok tt, (w, Some path))
    end.
Proof.
  intros Htruthy.
  unfold execute_python_finally, mbind, get_local, on_world, os_path_exists,
    os_unlink.
  simpl. rewrite Htruthy.
  destruct (resolve w path) as [l|e] eqn:Hres; simpl; [| done].
  destruct (node_at (fs w) l) as [[]|] eqn:Hnode; simpl;
    rewrite ?Hres; simpl; rewrite ?Hnode; try done.
Qed.

Lemma handle_execute_python (e : exn) (s : world * option pystr) :
  handle
    [ (ExceptClass TimeoutExpired,
       fun _ => ret (lit "Error: execution timed out (30 s limit)"));
      (ExceptException, fun exc => ret (error_string exc)) ] e s
  = (Ok (failure_string e), s).
Proof. unfold failure_string. simpl. by case_bool_decide. Qed.

(** Every way through [execute_python]. *)
Lemma execute_python_paths code w :
  match child_run w code with
  | Some (path, r, w3) =>
      execute_python code w
      = match resolve w3 path with
        | Ok l =>
            match node_at (fs w3) l with
            | Some Dir => (Raise (EISDIR path), w3)
            | Some _ => (Ok (run_string r), set_fs w3 (delete l (fs w3)))
            | None => (Ok (run_string r), w3)
            end
        | Raise _ => (Ok (run_string r), w3)
        end
  | None =>
      exists e,
        (execute_python_try code (w, None)).1 = Raise e /\
        execute_python code w
        = (Ok (failure_string e), (execute_python_try code (w, None)).2.1)
  end.
Proof.
  pose proof (execute_python_try_paths code w) as Htry.
  unfold execute_python, execute_python_frame, try_finally, try_except.
  destruct (NamedTemporaryFile w) as [[[path l]|e] w1] eqn:Htmp.
  2: { destruct Htry as [-> ->]. rewrite handle_execute_python.
       exists e. done. }
  destruct (utf8_encode code) as [bytes|e].
  2: { destruct Htry as [-> ->]. rewrite handle_execute_python.
       exists e. done. }
  cbv zeta in Htry. destruct Htry as [-> ->].
  apply NamedTemporaryFile_ok in Htmp as (Hpath & _).
  assert (truthy path = true) as Htruthy
    by (rewrite Hpath; apply truthy_scratch_path).
  destruct (python w path _) as [r f]; cbn [fst snd].
  destruct r as [result|e]; cbv beta iota;
    rewrite ?handle_execute_python; cbv beta iota;
    rewrite (execute_python_finally_cases _ _ Htruthy);
    (destruct (resolve _ path) as [l0|e0]; simpl; [| done]);
    by destruct (node_at f l0) as [[]|].
Qed.



(** When the script cannot be encoded, [f.write] raises before
    [tmp_path = f.name] is reached, the [finally] suite finds
    [tmp_path is None], and the file [NamedTemporaryFile] made stays. *)
Lemma scratch_file_left code e w path l w1 :
  utf8_encode code = Raise e ->
  NamedTemporaryFile w = (Ok (path, l), w1) ->
  fs w !! l = None /\
  execute_python code w = (Ok (failure_string e), w1) /\
  fs (execute_python code w).2 !! l = Some (File []).
Proof.
  intros Henc Htmp. pose proof (execute_python_paths code w) as Hpaths.
  pose proof (execute_python_try_paths code w) as Htry.
  rewrite Htmp, Henc in Htry. destruct Htry as [Hnone Htry].
  rewrite Hnone, Htry in Hpaths. destruct Hpaths as (e0 & [= <-] & Hrun).
  simpl in Hrun.
  apply NamedTemporaryFile_ok in Htmp as (_ & _ & Hfree & _ & ->).
  rewrite Hrun. simpl. by rewrite lookup_insert_eq.
Qed.

(** C6, where the code departs from it: for a script with a lone surrogate
    ([code = "\ud800"]) the tool returns the error string of the
    [UnicodeEncodeError], and the scratch file [/tmp/tmp0.py], which did
    not exist before the call, is still on disk after it. *)
Theorem scratch_file_survives_failed_write :
  fs example_world !! [lit "tmp"; lit "tmp0.py"] = None /\
  (execute_python [0xD800] example_world).1
  = Ok (lit "Error: 'utf-8' codec can't encode character '\ud800' "
          ++ lit "in position 0: surrogates not allowed") /\
  fs (execute_python [0xD800] example_world).2 !! [lit "tmp"; lit "tmp0.py"]
  = Some (File []).
Proof. vm_compute. repeat split. Qed.

(** * A tool that raises *)

Lemma except_exception_total {A} (body : M A) (h : exn -> A) w :
  try_except body [ (ExceptException, fun exc => ret (h exc)) ] w
  = match body w with
    | (Ok a, w') => (Ok a, w')
    | (Raise e, w') => (Ok (h e), w')
    end.
Proof. unfold try_except. by destruct (body w) as [[a|e] w']. Qed.

(** C4, where the code departs from it: [os.unlink] in the [finally]
    suite of [execute_python] is outside every [except] clause.  For a
    script that puts a directory in its own place the child exits with
    code 0, the scratch path exists, [os.unlink] raises
    [IsADirectoryError], and that exception, not a result string, is what
    the caller of the tool gets; the directory stays. *)
Theorem cleanup_failure_escapes :
  child_run self_replacing_world self_replacing_script
  = Some (lit "/tmp/tmp0.py",
          Ok {| returncode := 0; stdout := []; stderr := [] |},
          set_fs (next_seed self_replacing_world)
            (<[ [lit "tmp"; lit "tmp0.py"] := Dir ]>
               (fs self_replacing_world))) /\
  (execute_python self_replacing_script self_replacing_world).1
  = Raise (Exn IsADirectoryError
             (lit "[Errno 21] Is a directory: '/tmp/tmp0.py'")) /\
  fs (execute_python self_replacing_script self_replacing_world).2
    !! [lit "tmp"; lit "tmp0.py"] = Some Dir.
Proof. vm_compute. repeat split. Qed.

(** * The directory listing *)

Ltac n_cases :=
  repeat match goal with
    | |- context [N.ltb ?x ?y] => destruct (N.ltb_spec x y)
    | |- context [N.eqb ?x ?y] => destruct (N.eqb_spec x y)
    | H : context [N.ltb ?x ?y] |- _ => destruct (N.ltb_spec x y)
    | H : context [N.eqb ?x ?y] |- _ => destruct (N.eqb_spec x y)
    end.

Lemma str_lt_irrefl a : str_lt a a = false.
Proof.
  induction a as [|x a IH]; simpl; [done |].
  rewrite IH. n_cases; simpl; try done; lia.
Qed.

Lemma str_lt_asym a b : str_lt a b = true -> str_lt b a = false.
Proof.
  revert b; induction a as [|x a IH]; intros [|y b]; simpl; try done.
  intros H. specialize (IH b).
  n_cases; simpl in *; try done; try lia. by apply IH.
Qed.

Lemma str_le_trans a b c :
  str_lt b a = false -> str_lt c b = false -> str_lt c a = false.
Proof.
  revert b c; induction a as [|x a IH]; intros [|y b] [|z c]; simpl;
    try done.
  intros H1 H2. specialize (IH b c).
  n_cases; simpl in *; try done; try lia. by apply IH.
Qed.

Lemma str_le_antisym a b :
  str_lt a b = false -> str_lt b a = false -> a = b.
Proof.
  revert b; induction a as [|x a IH]; intros [|y b]; simpl; try done.
  intros H1 H2. specialize (IH b).
  n_cases; simpl in *; try done; try lia. subst. f_equal. by apply IH.
Qed.

Lemma key_lt_asym k1 k2 : key_lt k1 k2 = true -> key_lt k2 k1 = false.
Proof.
  destruct k1 as [[] n1], k2 as [[] n2]; unfold key_lt; simpl; try done;
    apply str_lt_asym.
Qed.

Lemma entry_le_trans a b c : entry_le a b -> entry_le b c -> entry_le a c.
Proof.
  unfold entry_le, key_lt, sort_key; simpl.
  destruct (is_dir a), (is_dir b), (is_dir c); simpl; try done;
    apply str_le_trans.
Qed.

Lemma insert_entry_perm e l : insert_entry e l ≡ₚ e :: l.
Proof.
  induction l as [|y ys IH]; simpl; [done |].
  destruct (key_lt (sort_key y) (sort_key e)); [| done].
  by rewrite IH, Permutation_swap.
Qed.

Lemma sorted_perm l : sorted l ≡ₚ l.
Proof.
  induction l as [|e l IH]; simpl; [done |].
  by rewrite insert_entry_perm, IH.
Qed.

Lemma insert_entry_sorted e l :
  StronglySorted entry_le l -> StronglySorted entry_le (insert_entry e l).
Proof.
  induction 1 as [|y ys Hys IH Hy]; simpl.
  - by repeat constructor.
  - destruct (key_lt (sort_key y) (sort_key e)) eqn:Hlt.
    + constructor; [exact IH |].
      rewrite insert_entry_perm. constructor; [| exact Hy].
      by apply key_lt_asym.
    + constructor; [by constructor |].
      constructor; [exact Hlt |].
      eapply Forall_impl; [exact Hy |].
      intros z Hz. by apply (entry_le_trans e y z).
Qed.

Lemma sorted_sorted l : StronglySorted entry_le (sorted l).
Proof.
  induction l as [|e l IH]; simpl; [constructor |].
  by apply insert_entry_sorted.
Qed.

Lemma sorted_dirs_first l :
  StronglySorted entry_le l -> dirs_first_then_by_name l.
Proof.
  induction 1 as [|x0 l Hl IH Hx0]; intros i j x y Hij Hi Hj.
  - by rewrite lookup_nil in Hi.
  - destruct j as [|j]; [lia |]. simpl in Hj.
    destruct i as [|i]; simpl in Hi.
    + injection Hi as ->.
      apply (Forall_lookup_1 _ _ _ _ Hx0) in Hj.
      unfold entry_le, key_lt, sort_key in Hj; simpl in Hj.
      destruct (is_dir x), (is_dir y); simpl in Hj; done.
    + apply (IH i j); [lia | done | done].
Qed.

(** Sorting does not depend on the order [os.scandir] lists a directory
    in, when no two entries have the same key. *)
Lemma sorted_unique l1 l2 :
  l1 ≡ₚ l2 -> NoDup (map sort_key l1) -> sorted l1 = sorted l2.
Proof.
  intros Hperm Hnodup.
  apply (StronglySorted_unique_strong entry_le);
    [| apply sorted_sorted | apply sorted_sorted
     | by rewrite !sorted_perm].
  intros x1 x2 Hx1 Hx2 H12 H21.
  rewrite sorted_perm in Hx1. rewrite sorted_perm, <- Hperm in Hx2.
  assert (sort_key x1 = sort_key x2) as Hkey.
  { unfold entry_le, key_lt in H12, H21.
    destruct (sort_key x1) as [b1 n1], (sort_key x2) as [b2 n2]; simpl in *.
    destruct b1, b2; simpl in *; try done;
      f_equal; by apply str_le_antisym. }
  apply list_elem_of_lookup in Hx1 as [i1 Hi1].
  apply list_elem_of_lookup in Hx2 as [i2 Hi2].
  assert (i1 = i2) as ->.
  { eapply NoDup_lookup; [exact Hnodup | |];
      rewrite list_lookup_fmap; [by rewrite Hi1 | by rewrite Hi2, Hkey]. }
  congruence.
Qed.

(** The entries [os.scandir] gives for the directory at [l] are its
    immediate children: the nodes one component below [l]. *)
Lemma scandir_children (f : gmap (list pystr) node) l e :
  e ∈ omap (child_of l) (map_to_list f) <->
  f !! (l ++ [name e]) = Some (entry_node e).
Proof.
  rewrite list_elem_of_omap. split.
  - intros ([k n] & Hin & Hchild). apply elem_of_map_to_list in Hin.
    unfold child_of in Hchild. simpl in Hchild.
    case_bool_decide as Hk; [| done]. destruct Hk as [Hne <-].
    injection Hchild as <-. simpl.
    by rewrite <- app_removelast_last.
  - intros Hlook. exists (l ++ [name e], entry_node e). split.
    + by apply elem_of_map_to_list.
    + unfold child_of. simpl.
      rewrite bool_decide_eq_true_2.
      * rewrite last_last. by destruct e.
      * split; [by destruct l | apply removelast_last].
Qed.

Lemma entry_line_format e :
  entry_line e
  = match entry_node e with
    | Dir => lit "[DIR ] " ++ name e
    | File data =>
        lit "[FILE] " ++ name e ++ lit " (" ++ str_of_N (len data) ++ lit " B)"
    | Socket => lit "[FILE] " ++ name e
    end.
Proof.
  unfold entry_line, is_dir, is_file, st_size.
  destruct (entry_node e); simpl; by rewrite ?app_nil_r.
Qed.

Lemma listing_nonempty_head entries :
  entries <> [] -> exists rest, listing entries = 91 :: rest.
Proof.
  destruct entries as [|e [|e' entries]]; [done | |]; intros _;
    unfold listing; simpl; eauto.
Qed.

Lemma example_entries_sorted data_z data_y scanned :
  scanned ≡ₚ example_entries data_z data_y ->
  sorted scanned
  = [ {| name := lit "a"; entry_node := Dir |};
      {| name := lit "b"; entry_node := Dir |};
      {| name := lit "y.txt"; entry_node := File data_y |};
      {| name := lit "z.txt"; entry_node := File data_z |} ].
Proof.
  intros Hperm.
  rewrite <- (sorted_unique (example_entries data_z data_y) scanned).
  - reflexivity.
  - by symmetry.
  - unfold example_entries. simpl. apply NoDup_ListNoDup.
    repeat (constructor; [simpl; intuition discriminate |]). constructor.
Qed.

(** C7: for a directory, [list_files] returns the lines of its immediate
    children, directories first and by name within directories and within
    the rest, each line tagged [DIR ] or [FILE], with the size in bytes for
    a regular file; an empty directory gives the marker
    ["(empty directory)"], which no listing of entries equals (a listing
    starts with a bracket); and whatever order the directory is scanned in,
    sub-directories [b], [a] and files [z.txt], [y.txt] are listed as
    [a], [b], [y.txt], [z.txt]. *)
Theorem list_files_sorted_listing w directory l :
  resolve w directory = Ok l -> node_at (fs w) l = Some Dir ->
  let scanned := omap (child_of l) (map_to_list (fs w)) in
  let entries := sorted scanned in
  (forall e, e ∈ entries <-> fs w !! (l ++ [name e]) = Some (entry_node e)) /\
  entries ≡ₚ scanned /\
  dirs_first_then_by_name entries /\
  list_files directory w
  = (Ok (match entries with
         | [] => lit "(empty directory)"
         | _ => join [10] (map entry_line entries)
         end), w) /\
  (forall e,
     entry_line e
     = match entry_node e with
       | Dir => lit "[DIR ] " ++ name e
       | File data =>
           lit "[FILE] " ++ name e ++ lit " (" ++ str_of_N (len data)
             ++ lit " B)"
       | Socket => lit "[FILE] " ++ name e
       end) /\
  (entries <> [] ->
   exists rest, join [10] (map entry_line entries) = 91 :: rest) /\
  (forall data_z data_y,
     scanned ≡ₚ example_entries data_z data_y ->
     list_files directory w
     = (Ok (lit "[DIR ] a" ++ [10] ++ lit "[DIR ] b" ++ [10]
              ++ lit "[FILE] y.txt (" ++ str_of_N (len data_y) ++ lit " B)"
              ++ [10]
              ++ lit "[FILE] z.txt (" ++ str_of_N (len data_z) ++ lit " B)"),
        w)).
Proof.
  intros Hres Hdir scanned entries.
  assert (list_files directory w = (Ok (listing entries), w)) as Hrun.
  { unfold list_files. rewrite except_exception_total.
    unfold list_files_try, mbind, os_scandir. by rewrite Hres, Hdir. }
  assert (listing entries
          = match entries with
            | [] => lit "(empty directory)"
            | _ => join [10] (map entry_line entries)
            end) as Hlisting.
  { unfold listing. by destruct entries. }
  repeat split.
  - intros He. apply scandir_children. subst entries.
    by rewrite sorted_perm in He.
  - intros He. subst entries. rewrite sorted_perm. by apply scandir_children.
  - apply sorted_perm.
  - eapply (sorted_dirs_first entries (sorted_sorted scanned)); eauto.
  - eapply (sorted_dirs_first entries (sorted_sorted scanned)); eauto.
  - by rewrite Hrun, Hlisting.
  - apply entry_line_format.
  - intros Hne. destruct (listing_nonempty_head entries Hne) as [rest Hrest].
    exists rest. rewrite <- Hrest, Hlisting. by destruct entries.
  - intros data_z data_y Hperm. rewrite Hrun. subst entries.
    rewrite (example_entries_sorted data_z data_y scanned Hperm).
    unfold listing, entry_line, is_dir, is_file, st_size. simpl.
    by rewrite <- !app_assoc.
Qed.

Lemma list_files_sorted_listing_witness :
  resolve project_world (lit "proj") = Ok [lit "proj"] /\
  node_at (fs project_world) [lit "proj"] = Some Dir /\
  list_files (lit "proj") project_world
  = (Ok (lit "[DIR ] a" ++ [10] ++ lit "[DIR ] b" ++ [10]
           ++ lit "[FILE] y.txt (1 B)" ++ [10] ++ lit "[FILE] z.txt (2 B)"),
     project_world).
Proof.
  assert (resolve project_world (lit "proj") = Ok [lit "proj"]) as Hres
    by (vm_compute; reflexivity).
  assert (node_at (fs project_world) [lit "proj"] = Some Dir) as Hdir
    by (vm_compute; reflexivity).
  split; [exact Hres |]. split; [exact Hdir |].
  destruct (list_files_sorted_listing project_world (lit "proj") [lit "proj"]
              Hres Hdir) as (_ & _ & _ & _ & _ & _ & Hexample).
  rewrite (Hexample (lit "zz") (lit "y")); [reflexivity |].
  apply (bool_decide_unpack _). vm_compute. exact I.
Defined.

(** * The codec and the newline translation *)

Ltac bool_n :=
  repeat match goal with
    | |- context [N.ltb ?x ?y] => destruct (N.ltb_spec x y); try lia
    | |- context [N.leb ?x ?y] => destruct (N.leb_spec x y); try lia
    end.

(** The base-64 digits of a code point. *)
Lemma digits64 c :
  exists q1 r1 q2 r2 q3 r3,
    c / 64 = q1 /\ c mod 64 = r1 /\ c / 4096 = q2 /\ (c / 64) mod 64 = r2 /\
    c / 262144 = q3 /\ (c / 4096) mod 64 = r3 /\
    c = 64 * q1 + r1 /\ r1 < 64 /\ q1 = 64 * q2 + r2 /\ r2 < 64 /\
    q2 = 64 * q3 + r3 /\ r3 < 64.
Proof.
  exists (c / 64), (c mod 64), (c / 4096), ((c / 64) mod 64),
    (c / 262144), ((c / 4096) mod 64).
  repeat split; try (apply N.mod_lt; lia); try apply N.div_mod'.
  - change 4096 with (64 * 64). rewrite <- N.Div0.div_div. apply N.div_mod'.
  - change 262144 with (4096 * 64). rewrite <- N.Div0.div_div.
    apply N.div_mod'.
Qed.

Lemma decode_encoded_char c bs pos :
  encodable c = true ->
  exists k,
    utf8_decode_from pos (utf8_encode_char c ++ bs)
    = bind (utf8_decode_from (pos + k) bs) (fun s => Ok (c :: s)).
Proof.
  unfold encodable, is_surrogate, utf8_encode_char.
  intros Henc.
  apply andb_prop in Henc as [Hsur Hmax].
  apply negb_true_iff in Hsur. apply N.ltb_lt in Hmax.
  destruct (digits64 c) as
    (q1 & r1 & q2 & r2 & q3 & r3 & -> & -> & -> & -> & -> & ->
     & Hc & Hr1 & Hq1 & Hr2 & Hq2 & Hr3).
  destruct (N.ltb_spec c 0x80).
  { exists 1. simpl. destruct (N.ltb_spec c 128); [done | lia]. }
  destruct (N.ltb_spec c 0x800).
  { exists 2. cbn [app utf8_decode_from]. unfold is_cont.
    replace ((192 + q1 - 192) * 64 + (128 + r1 - 128)) with c by lia.
    bool_n. done. }
  destruct (N.ltb_spec c 0x10000).
  { exists 3. cbn [app utf8_decode_from]. unfold is_cont, is_surrogate.
    replace ((224 + q2 - 224) * 4096 + (128 + r2 - 128) * 64
             + (128 + r1 - 128)) with c by lia.
    rewrite Hsur. bool_n. done. }
  exists 4. cbn [app utf8_decode_from]. unfold is_cont.
  replace ((240 + q3 - 240) * 262144 + (128 + r3 - 128) * 4096
           + (128 + r2 - 128) * 64 + (128 + r1 - 128)) with c by lia.
  bool_n. done.
Qed.

(** Decoding undoes encoding. *)
Lemma utf8_roundtrip_from s :
  forall pos bytes pos',
    utf8_encode_from pos s = Ok bytes -> utf8_decode_from pos' bytes = Ok s.
Proof.
  induction s as [|c s IH]; intros pos bytes pos'; simpl.
  - by intros [= <-].
  - destruct (encodable c) eqn:Henc; [| done].
    destruct (utf8_encode_from (pos + 1) s) as [bs|e] eqn:Hrest; [| done].
    simpl. intros [= <-].
    destruct (decode_encoded_char c bs pos' Henc) as [k ->].
    by rewrite (IH _ _ (pos' + k) Hrest).
Qed.

Lemma utf8_roundtrip s bytes :
  utf8_encode s = Ok bytes -> utf8_decode bytes = Ok s.
Proof. apply utf8_roundtrip_from. Qed.

(** ASCII text is its own encoding: one byte for each character. *)
Lemma utf8_encode_ascii_from s :
  Forall (fun c => c < 128) s -> forall pos, utf8_encode_from pos s = Ok s.
Proof.
  induction 1 as [|c s Hc _ IH]; intros pos; simpl; [done |].
  rewrite IH. unfold encodable, is_surrogate, utf8_encode_char.
  bool_n. done.
Qed.

Lemma universal_newlines_no_cr s :
  13 ∉ s -> universal_newlines s = s.
Proof.
  induction s as [|c s IH]; simpl; [done |].
  rewrite not_elem_of_cons. intros [Hc Hs].
  destruct (N.eqb_spec c 13); [done |]. by rewrite IH.
Qed.

(** * Writing files and reading them back *)

(** After a successful write the path leads to a regular file that holds
    the UTF-8 encoding of the content. *)
Lemma write_file_try_ok file_path content w s w' :
  write_file_try file_path content w = (Ok s, w') ->
  s = wrote_string content file_path /\
  exists bytes,
    utf8_encode content = Ok bytes /\ file_bytes w' file_path = Some bytes.
Proof.
  unfold write_file_try, mbind.
  destruct ((if truthy (dirname file_path)
             then os_makedirs (dirname file_path) else ret ()) w)
    as [[[]|e] w1]; [| done].
  unfold open_w.
  destruct (resolve w1 file_path) as [l|e] eqn:Hres; [| done].
  assert (forall w2,
            l <> [] -> fs w1 !! l <> Some Dir ->
            w2 = set_fs w1 (<[l := File []]> (fs w1)) ->
            (let (r, s') := f_write l content w2 in
             match r with
             | Ok _ => ret (wrote_string content file_path) s'
             | Raise e => (Raise e, s')
             end) = (Ok s, w') ->
            s = wrote_string content file_path /\
            exists bytes,
              utf8_encode content = Ok bytes /\
              file_bytes w' file_path = Some bytes) as Hwrite.
  { intros w2 Hne Hnd -> . unfold f_write.
    destruct (utf8_encode content) as [bytes|e]; [| done].
    unfold ret. intros [= <- <-]. split; [done |].
    exists bytes; split; [done |].
    pose proof (resolve_insert_file w1 l [] file_path l Hne Hnd Hres)
      as Hres1.
    pose proof (resolve_insert_file
                  (set_fs w1 (<[l := File []]> (fs w1))) l bytes file_path l
                  Hne) as Hres2.
    simpl in Hres2. rewrite lookup_insert_eq in Hres2.
    specialize (Hres2 ltac:(done) Hres1).
    unfold file_bytes. simpl. rewrite Hres2.
    by rewrite node_at_nonempty, lookup_insert_eq by done. }
  destruct (node_at (fs w1) l) as [[data| |]|] eqn:Hnode; try done.
  - assert (l <> []) as Hne by (intros ->; done).
    rewrite node_at_nonempty in Hnode by done.
    apply (Hwrite _ Hne); [congruence | done].
  - assert (l <> []) as Hne by (intros ->; done).
    rewrite node_at_nonempty in Hnode by done.
    destruct (node_at (fs w1) (removelast l)) as [[]|]; try done.
    apply (Hwrite _ Hne); [congruence | done].
Qed.

(** [read_file] on a path that leads to a regular file. *)
Lemma read_file_bytes file_path w bytes text :
  file_bytes w file_path = Some bytes ->
  utf8_decode bytes = Ok text ->
  read_file file_path w
  = (Ok (let data := slice_to READ_CAP (universal_newlines text) in
         if truthy data then data else lit "(empty file)"), w).
Proof.
  unfold file_bytes, read_file, try_except, read_file_try, read_text, mbind,
    os_read_bytes, lift.
  destruct (resolve w file_path) as [l|e]; [| done].
  destruct (node_at (fs w) l) as [[data| |]|]; try done.
  intros [= ->] ->. reflexivity.
Qed.

Lemma write_file_succeeds w file_path content :
  write_succeeds w file_path content ->
  write_file file_path content w
  = (Ok (wrote_string content file_path),
     (write_file_try file_path content w).2) /\
  exists bytes,
    utf8_encode content = Ok bytes /\
    file_bytes (write_file file_path content w).2 file_path = Some bytes.
Proof.
  intros [s Hs]. unfold write_file. rewrite except_exception_total.
  destruct (write_file_try file_path content w) as [r w'] eqn:Htry.
  simpl in Hs. subst r.
  destruct (write_file_try_ok _ _ _ _ _ Htry) as (-> & bytes & Henc & Hfile).
  simpl. eauto.
Qed.

(** The write succeeded exactly when the tool returned the success
    string: an error string starts with another letter. *)
Lemma write_succeeds_observable w file_path content :
  write_succeeds w file_path content <->
  (write_file file_path content w).1 = Ok (wrote_string content file_path).
Proof.
  split.
  - intros Hok.
    destruct (write_file_succeeds w file_path content Hok) as [Hrun _].
    by rewrite Hrun.
  - unfold write_succeeds, write_file. rewrite except_exception_total.
    destruct (write_file_try file_path content w) as [[s|e] w']; simpl.
    + eauto.
    + unfold error_string, wrote_string. by intros [= H].
Qed.

Lemma slice_to_all n (s : pystr) : len s <= n -> slice_to n s = s.
Proof. unfold slice_to, len. intros H. apply take_ge. lia. Qed.

Lemma truthy_slice_to n (s : pystr) :
  0 < n -> truthy (slice_to n s) = truthy s.
Proof.
  unfold slice_to. intros Hn.
  destruct (N.to_nat n) eqn:E; [lia |]. by destruct s.
Qed.

(** C1, as the code has it: when the write succeeds and the content has no
    carriage return, reading the same path back returns the content if it
    has between 1 and 12,000 characters, its first 12,000 characters if it
    is longer, and the marker ["(empty file)"] if it is empty. *)
Theorem read_after_write w file_path content :
  write_succeeds w file_path content -> 13 ∉ content ->
  let w' := (write_file file_path content w).2 in
  (content = [] -> read_file file_path w' = (Ok (lit "(empty file)"), w')) /\
  (content <> [] -> len content <= READ_CAP ->
   read_file file_path w' = (Ok content, w')) /\
  (READ_CAP < len content ->
   read_file file_path w' = (Ok (slice_to READ_CAP content), w')).
Proof.
  intros Hok Hcr w'.
  destruct (write_file_succeeds w file_path content Hok)
    as (_ & bytes & Henc & Hfile).
  pose proof (read_file_bytes file_path w' bytes content Hfile
                (utf8_roundtrip content bytes Henc)) as Hread.
  cbv zeta in Hread.
  rewrite (universal_newlines_no_cr content Hcr) in Hread.
  rewrite truthy_slice_to in Hread by done.
  split; [| split].
  - intros ->. exact Hread.
  - intros Hne Hlen. rewrite Hread, slice_to_all by done.
    by destruct content.
  - intros Hlen. rewrite Hread. destruct content; [done | reflexivity].
Qed.

Lemma read_after_write_witness :
  write_succeeds example_world (lit "notes/plan.txt") (lit "step 1") /\
  (read_file (lit "notes/plan.txt")
     (write_file (lit "notes/plan.txt") (lit "step 1") example_world).2).1
  = Ok (lit "step 1").
Proof.
  assert (write_succeeds example_world (lit "notes/plan.txt") (lit "step 1"))
    as Hok by (eexists; vm_compute; reflexivity).
  assert (13 ∉ lit "step 1") as Hcr
    by (apply (bool_decide_unpack _); vm_compute; exact I).
  split; [exact Hok |].
  destruct (read_after_write example_world (lit "notes/plan.txt")
              (lit "step 1") Hok Hcr) as (_ & Hshort & _).
  rewrite Hshort; [reflexivity | discriminate | vm_compute; discriminate].
Defined.

(** C1 as stated fails: written empty, a file reads back as the marker;
    a carriage return reads back as a line feed; and where the write
    fails (the path is a directory) the read returns an error string. *)
Lemma read_after_write_counterexample :
  let w1 := (write_file (lit "f.txt") [] example_world).2 in
  (write_file (lit "f.txt") [] example_world).1
  = Ok (lit "Wrote 0 chars to f.txt") /\
  (read_file (lit "f.txt") w1).1 = Ok (lit "(empty file)") /\
  (read_file (lit "f.txt") w1).1 <> Ok [] /\
  let w2 := (write_file (lit "f.txt") [97; 13; 98] example_world).2 in
  (write_file (lit "f.txt") [97; 13; 98] example_world).1
  = Ok (lit "Wrote 3 chars to f.txt") /\
  (read_file (lit "f.txt") w2).1 = Ok [97; 10; 98] /\
  let w3 := (write_file (lit "tmp") (lit "x") example_world).2 in
  (write_file (lit "tmp") (lit "x") example_world).1
  = Ok (lit "Error: [Errno 21] Is a directory: 'tmp'") /\
  (read_file (lit "tmp") w3).1
  = Ok (lit "Error: [Errno 21] Is a directory: 'tmp'").
Proof. vm_compute. repeat split; discriminate. Qed.

(** C9, as the code has it: when the write succeeds, [write_file] returns
    ["Wrote N chars to PATH"] where [N] is the number of characters of the
    content; the file then holds the UTF-8 encoding of the content, whose
    number of bytes is [N] when the content is ASCII. *)
Theorem write_file_reports_characters w file_path content :
  write_succeeds w file_path content ->
  exists bytes,
    (write_file file_path content w).1
    = Ok (lit "Wrote " ++ str_of_N (len content) ++ lit " chars to "
            ++ file_path) /\
    utf8_encode content = Ok bytes /\
    file_bytes (write_file file_path content w).2 file_path = Some bytes /\
    (Forall (fun c => c < 128) content -> len bytes = len content).
Proof.
  intros Hok.
  destruct (write_file_succeeds w file_path content Hok)
    as (Hrun & bytes & Henc & Hfile).
  exists bytes.
  split; [by rewrite Hrun |]. split; [done |]. split; [done |].
  intros Hascii. unfold utf8_encode in Henc.
  rewrite (utf8_encode_ascii_from content Hascii) in Henc. congruence.
Qed.

Lemma write_file_reports_characters_witness :
  write_succeeds example_world (lit "notes/plan.txt") (lit "step 1") /\
  (write_file (lit "notes/plan.txt") (lit "step 1") example_world).1
  = Ok (lit "Wrote 6 chars to notes/plan.txt").
Proof.
  assert (write_succeeds example_world (lit "notes/plan.txt") (lit "step 1"))
    as Hok by (eexists; vm_compute; reflexivity).
  split; [exact Hok |].
  destruct (write_file_reports_characters example_world
              (lit "notes/plan.txt") (lit "step 1") Hok)
    as (bytes & Hrun & _).
  rewrite Hrun. reflexivity.
Defined.

(** C9 as stated fails: the one character U+00E9 is written as two bytes,
    and the string returned says 1; the number 2 does not occur in it. *)
Lemma write_file_bytes_counterexample :
  (write_file (lit "f.txt") [233] example_world).1
  = Ok (lit "Wrote 1 chars to f.txt") /\
  file_bytes (write_file (lit "f.txt") [233] example_world).2 (lit "f.txt")
  = Some [195; 169] /\
  contains (lit "Wrote 1 chars to f.txt") (str_of_N (len [195; 169])) = false.
Proof. vm_compute. repeat split. Qed.

(** * Further properties of the tools *)







(** X4: [read_file] and [list_files] only look: whatever their argument
    and whatever they return, the machine is as it was. *)
Theorem reading_tools_change_nothing w :
  (forall file_path, (read_file file_path w).2 = w) /\
  (forall directory, (list_files directory w).2 = w).
Proof.
  split.
  - intros file_path.
    unfold read_file, try_except, read_file_try, read_text, mbind,
      os_read_bytes, lift.
    destruct (resolve w file_path) as [l|e]; simpl.
    + destruct (node_at (fs w) l) as [[data| |]|]; simpl; try done.
      destruct (utf8_decode data); simpl; [done |].
      unfold ret; by case_bool_decide.
    + unfold ret; by case_bool_decide.
  - intros directory. unfold list_files. rewrite except_exception_total.
    unfold list_files_try, mbind, os_scandir.
    destruct (resolve w directory) as [l|e]; simpl; [| done].
    by destruct (node_at (fs w) l) as [[]|].
Qed.

Lemma universal_newlines_length_ind (n : nat) :
  forall s, (length s <= n)%nat -> 13 ∉ universal_newlines s.
Proof.
  induction n as [|n IH]; intros s Hlen.
  - destruct s; [apply not_elem_of_nil | simpl in Hlen; lia].
  - destruct s as [|c r]; [apply not_elem_of_nil |].
    simpl in *. destruct (N.eqb_spec c 13) as [-> | Hc].
    + apply not_elem_of_cons. split; [done |].
      destruct r as [|d r']; [apply not_elem_of_nil |].
      destruct (d =? 10); apply IH; simpl in *; lia.
    + apply not_elem_of_cons. split; [done |]. apply IH. lia.
Qed.

Lemma universal_newlines_no_cr_out s : 13 ∉ universal_newlines s.
Proof. by apply (universal_newlines_length_ind (length s)). Qed.

Lemma len_slice_to n (s : pystr) : len (slice_to n s) <= n.
Proof. unfold len, slice_to. rewrite length_take. lia. Qed.

(** X5: what [read_file] returns for a regular file that decodes: never
    more than 12,000 characters, never a carriage return, and either the
    marker ["(empty file)"] or a prefix of the text of the file with its
    newlines translated. *)
Theorem read_file_is_capped w file_path bytes text :
  file_bytes w file_path = Some bytes ->
  utf8_decode bytes = Ok text ->
  exists s,
    (read_file file_path w).1 = Ok s /\
    (len s <= READ_CAP) /\
    (13 ∉ s) /\
    (s = lit "(empty file)" \/
     exists rest, universal_newlines text = s ++ rest).
Proof.
  intros Hfile Hdec.
  rewrite (read_file_bytes file_path w bytes text Hfile Hdec). cbv zeta.
  eexists; split; [reflexivity |].
  destruct (truthy (slice_to READ_CAP (universal_newlines text))).
  - split; [apply len_slice_to |]. split.
    + intros Hin. apply subseteq_take in Hin.
      by apply universal_newlines_no_cr_out in Hin.
    + right. exists (drop (N.to_nat READ_CAP) (universal_newlines text)).
      unfold slice_to. by rewrite take_drop.
  - split; [by vm_compute |]. split; [| by left].
    apply (bool_decide_unpack _). vm_compute. exact I.
Qed.

Lemma read_file_is_capped_witness :
  file_bytes project_world (lit "proj/z.txt") = Some (lit "zz") /\
  utf8_decode (lit "zz") = Ok (lit "zz") /\
  exists s,
    (read_file (lit "proj/z.txt") project_world).1 = Ok s /\
    (len s <= READ_CAP) /\
    (13 ∉ s) /\
    (s = lit "(empty file)" \/
     exists rest, universal_newlines (lit "zz") = s ++ rest).
Proof.
  assert (file_bytes project_world (lit "proj/z.txt") = Some (lit "zz"))
    as Hfile by (vm_compute; reflexivity).
  assert (utf8_decode (lit "zz") = Ok (lit "zz")) as Hdec
    by (vm_compute; reflexivity).
  split; [exact Hfile |]. split; [exact Hdec |].
  exact (read_file_is_capped project_world (lit "proj/z.txt") (lit "zz")
           (lit "zz") Hfile Hdec).
Defined.

(** X8: the listing does not depend on the order in which the directory
    is scanned: two scans with the same entries, whose names are distinct
    as they are within one directory, give the same text. *)
Theorem listing_ignores_scan_order scan1 scan2 :
  scan1 ≡ₚ scan2 -> NoDup (map name scan1) ->
  listing (sorted scan1) = listing (sorted scan2).
Proof.
  intros Hperm Hnames. f_equal. apply sorted_unique; [done |].
  apply (NoDup_fmap_1 snd).
  rewrite <- list_fmap_compose. exact Hnames.
Qed.

Lemma listing_ignores_scan_order_witness :
  listing (sorted (example_entries (lit "zz") (lit "y")))
  = listing (sorted (rev (example_entries (lit "zz") (lit "y")))).
Proof.
  apply listing_ignores_scan_order.
  - apply (bool_decide_unpack _). vm_compute. exact I.
  - apply (bool_decide_unpack _). vm_compute. exact I.
Defined.

(** * Further properties of the endpoint *)

Lemma on_event_bounded ev c :
  exists out,
    sent (on_event ev c).2 = sent c ++ out /\ Forall frame_bounded out.
Proof.
  destruct ev as [kind nm chunk input output].
  unfold on_event, item, mbind, set_history, with_history, ret, raise; simpl.
  destruct chunk as [[[|ch s]|blocks]|], nm as [tool|],
    input as [[istr imsgs]|], output as [[ostr [msgs|]]|];
    repeat case_bool_decide; simpl; unfold send_text;
    destruct (peer c) as [[|[|n]]|] eqn:Hpeer; simpl; rewrite ?Hpeer;
    first
      [ exists []; split; [by rewrite app_nil_r | by constructor]
      | eexists [_]; split; [reflexivity |];
        repeat constructor; apply len_slice_to ].
Qed.

Lemma for_each_bounded events c :
  exists out,
    sent (for_each events c).2 = sent c ++ out /\ Forall frame_bounded out.
Proof.
  revert c; induction events as [|ev rest IH]; intros c; simpl.
  - exists []; split; [by rewrite app_nil_r | constructor].
  - unfold mbind.
    destruct (on_event_bounded ev c) as (out1 & E1 & P1).
    destruct (on_event ev c) as [[[]|e] c1] eqn:Eev; simpl in *.
    + destruct (IH c1) as (out2 & E2 & P2).
      exists (out1 ++ out2); split; [by rewrite E2, E1, app_assoc |].
      by apply Forall_app.
    + by exists out1.
Qed.

(** X9: every frame of a turn respects the preview lengths of the
    endpoint: a [tool_start] carries at most 400 characters of input, a
    [tool_end] at most 600 of output, an [error] at most 600 of the
    traceback, whatever the agent streams and whether or not the client
    stays. *)
Theorem turn_frames_are_bounded agent format_exc c :
  Forall frame_bounded (turn_events agent format_exc c).
Proof.
  unfold turn_events, turn, try_except, mbind, get_history, async_for, mbind.
  simpl.
  destruct (for_each_bounded (run_events (agent (history c))) c)
    as (pre & E & P).
  assert (forall tail, Forall frame_bounded tail ->
            Forall frame_bounded (drop (length (sent c)) (sent c ++ pre ++ tail)))
    as Hdrop.
  { intros tail Htail. rewrite drop_app_length. by apply Forall_app. }
  destruct (for_each _ c) as [[[]|e] c1] eqn:Efe; simpl in *;
    [destruct (run_failure _) as [e|]; simpl |];
    unfold send_text, mbind;
    destruct (peer c1) as [[|[|[|n]]]|] eqn:Hpeer; simpl;
    rewrite ?Hpeer; simpl; rewrite E, <- ?app_assoc;
    first
      [ rewrite <- (app_nil_r pre) at 1; apply Hdrop; constructor
      | apply Hdrop; repeat constructor; apply len_slice_to ].
Qed.

Lemma loop_body_blank agent format_exc raw c :
  blank_frame raw = true ->
  loop_body agent format_exc raw c = (Ok Skipped, c).
Proof.
  destruct raw as [msg|[| | | | | |members]]; try done. simpl.
  unfold loop_body, mbind, lift; simpl.
  destruct (dict_lookup _ members) as [[]|]; simpl; try done.
  by destruct (truthy (strip s)).
Qed.

Lemma serve_cons agent format_exc raw rest c :
  serve agent format_exc (raw :: rest) c
  = match loop_body agent format_exc raw c with
    | (Ok _, c') => serve agent format_exc rest c'
    | (Raise e, c') => (Raise e, c')
    end.
Proof. reflexivity. Qed.

(** X10: blank frames are transparent: taking them out of what the client
    sends changes neither what the handler returns, nor the history, nor
    the frames sent. *)
Theorem blank_frames_are_transparent agent format_exc frames c :
  websocket_endpoint agent format_exc
    (filter (fun raw => blank_frame raw = false) frames) c
  = websocket_endpoint agent format_exc frames c.
Proof.
  unfold websocket_endpoint, try_except.
  assert (forall c0,
            serve agent format_exc
              (filter (fun raw => blank_frame raw = false) frames) c0
            = serve agent format_exc frames c0) as Hserve.
  { induction frames as [|raw rest IH]; intros c0; [done |].
    destruct (blank_frame raw) eqn:Hblank.
    - rewrite filter_cons_False by (by rewrite Hblank).
      by rewrite serve_cons, (loop_body_blank _ _ _ _ Hblank), IH.
    - rewrite filter_cons_True by done.
      rewrite !serve_cons.
      destruct (loop_body agent format_exc raw c0) as [[it|e] c1]; [| done].
      apply IH. }
  by rewrite Hserve.
Qed.

(** A frame whose message has text runs a turn on the history with the
    stripped text appended; what the turn raises leaves the loop body. *)
Lemma loop_body_message agent format_exc members s c :
  dict_lookup (lit "message") members = Some (JString s) ->
  strip s <> [] ->
  loop_body agent format_exc (JSONText (JObject members)) c
  = match turn agent format_exc
            (with_history (history c ++ [HumanMessage (strip s)]) c) with
    | (Ok _, c') => (Ok Served, c')
    | (Raise e, c') => (Raise e, c')
    end.
Proof.
  intros Hmsg Htext. unfold loop_body, mbind, lift; simpl.
  rewrite Hmsg. simpl.
  destruct (strip s) as [|ch text] eqn:Hs; [done |]. simpl.
  by destruct (turn agent format_exc _) as [[[]|e] c'].
Qed.

(** On frames of the protocol and with a client that stays, every
    iteration of the loop ends normally and the client still stays. *)
Lemma loop_body_stays agent format_exc raw c :
  protocol_frame raw = true -> peer c = None ->
  exists it,
    (loop_body agent format_exc raw c).1 = Ok it /\
    peer (loop_body agent format_exc raw c).2 = None.
Proof.
  intros Hraw Hopen.
  destruct (blank_frame raw) eqn:Hblank.
  { rewrite (loop_body_blank _ _ _ _ Hblank). by exists Skipped. }
  destruct raw as [msg|[| | | | | |members]]; try done. simpl in *.
  destruct (dict_lookup _ members) as [[| | | |s| |]|] eqn:Hmsg; try done.
  assert (strip s <> []) as Htext by (by destruct (strip s)).
  rewrite (message_starts_turn _ _ _ _ _ Hopen Hmsg Htext). simpl.
  exists Served. split; [done |].
  by destruct (turn_shape agent format_exc
                 (with_history (history c ++ [HumanMessage (strip s)]) c)
                 Hopen) as (_ & _ & _ & Hpeer & _).
Qed.

(** X18: a client that stays until it has sent its last frame is served
    to the end.  On frames of the protocol the disconnection that
    [receive_text] raises when the frames run out is the only exception,
    and the handler swallows it: it returns normally. *)
Theorem endpoint_returns_for_staying_client agent format_exc frames c :
  peer c = None ->
  Forall (fun raw => protocol_frame raw = true) frames ->
  (websocket_endpoint agent format_exc frames c).1 = Ok tt.
Proof.
  intros Hopen Hframes.
  assert ((serve agent format_exc frames c).1
          = Raise (Exn WebSocketDisconnect [])) as Hserve.
  { revert c Hopen. induction Hframes as [|raw rest Hraw _ IH];
      intros c Hopen; [done |].
    rewrite serve_cons.
    destruct (loop_body_stays agent format_exc raw c Hraw Hopen)
      as (it & Hok & Hpeer).
    destruct (loop_body agent format_exc raw c) as [[it'|e] c1];
      simpl in *; [by apply IH | done]. }
  unfold websocket_endpoint, try_except.
  destruct (serve agent format_exc frames c) as [[[]|e] c1]; simpl in *;
    [done |]. by injection Hserve as ->.
Qed.

Lemma endpoint_returns_for_staying_client_witness :
  let frames :=
    [ JSONText (JObject []);
      JSONText (JObject [(lit "message", JString (lit "What is 2 + 2?"))]) ] in
  peer accepted = None /\
  Forall (fun raw => protocol_frame raw = true) frames /\
  (websocket_endpoint example_agent example_format_exc frames accepted).1
  = Ok tt.
Proof.
  intros frames.
  assert (Forall (fun raw => protocol_frame raw = true) frames) as Hframes
    by (by repeat constructor).
  split; [reflexivity |]. split; [exact Hframes |].
  exact (endpoint_returns_for_staying_client example_agent example_format_exc
           frames accepted eq_refl Hframes).
Defined.

(** *** A client that leaves in the middle of a turn *)

Lemma stays_limit k c : peer c = None -> stays (limit k c) = c.
Proof. destruct c as [h s p]. unfold stays, limit. simpl. by intros ->. Qed.

Ltac follows_quiet :=
  let c := fresh "c" in
  let n := fresh "n" in
  let Hpeer := fresh "Hpeer" in
  intros c n Hpeer; exists [];
  destruct c as [? ? p]; simpl in Hpeer; subst p;
  unfold stays, limit; simpl;
  split; [done |]; split; [by rewrite app_nil_r |];
  rewrite ?bool_decide_eq_true_2 by lia;
  by rewrite ?Nat.sub_0_r.

Lemma follows_ret {A} (a : A) : follows (ret a).
Proof. follows_quiet. Qed.

Lemma follows_raise {A} e : follows (@raise conn A e).
Proof. follows_quiet. Qed.

Lemma follows_get_history : follows get_history.
Proof. follows_quiet. Qed.

Lemma follows_set_history h : follows (set_history h).
Proof. follows_quiet. Qed.

Lemma follows_item {A} (field : option A) key : follows (item field key).
Proof. destruct field; [apply follows_ret | apply follows_raise]. Qed.

Lemma follows_send_text ev : follows (send_text ev).
Proof.
  intros c n Hpeer. exists [ev]. unfold send_text, stays, limit. simpl.
  rewrite Hpeer. split; [done |]. split; [done |].
  destruct n as [|n]; simpl.
  - exists (history c). by rewrite app_nil_r.
  - rewrite ?bool_decide_eq_true_2 by lia. by rewrite ?Nat.sub_0_r.
Qed.

Lemma follows_bind {A B} (m : ST conn A) (k : A -> ST conn B) :
  follows m -> (forall a, follows (k a)) -> follows (mbind m k).
Proof.
  intros Hm Hk c n Hpeer. unfold mbind.
  destruct (Hm c n Hpeer) as (out1 & Hstay1 & Hsent1 & Hrun1).
  destruct (m (stays c)) as [[a|e] c1] eqn:Hmc; simpl in *.
  2: { exists out1. split; [done |]. split; [done |].
       case_bool_decide.
       - by rewrite Hrun1.
       - destruct Hrun1 as (h & ->). by exists h. }
  case_bool_decide as Hlen1.
  2: { destruct Hrun1 as (h & ->).
       destruct (Hk a (limit 1 c1) O eq_refl) as (out2 & Hstay2 & Hsent2 & _).
       rewrite (stays_limit _ _ Hstay1) in Hstay2, Hsent2. simpl in Hsent2.
       exists (out1 ++ out2). split; [done |].
       split; [by rewrite Hsent2, Hsent1, app_assoc |].
       rewrite bool_decide_eq_false_2 by (rewrite length_app; lia).
       exists h. rewrite take_app_le by lia. done. }
  rewrite Hrun1.
  destruct (Hk a (limit (S (n - length out1)) c1) (n - length out1)%nat
              eq_refl) as (out2 & Hstay2 & Hsent2 & Hrun2).
  rewrite (stays_limit _ _ Hstay1) in Hstay2, Hsent2, Hrun2.
  simpl in Hsent2, Hrun2.
  exists (out1 ++ out2). split; [done |].
  split; [by rewrite Hsent2, Hsent1, app_assoc |].
  rewrite length_app.
  case_bool_decide as Hlen2.
  - rewrite bool_decide_eq_true_2 by lia. rewrite Hrun2.
    by replace (n - length out1 - length out2)%nat
         with (n - (length out1 + length out2))%nat by lia.
  - rewrite bool_decide_eq_false_2 by lia.
    destruct Hrun2 as (h & ->). exists h.
    rewrite Hsent1, <- app_assoc.
    by rewrite take_app_ge by lia.
Qed.

Lemma follows_on_event ev : follows (on_event ev).
Proof.
  unfold on_event.
  repeat first
    [ case_bool_decide | destruct (bool_decide _ && bool_decide _)
    | apply follows_bind; [apply follows_item | intros ?]
    | apply follows_send_text | apply follows_set_history
    | apply follows_ret
    | match goal with
      | |- follows (match ?x with _ => _ end) => destruct x
      | |- follows (if ?x then _ else _) => destruct x
      end ].
Qed.

Lemma follows_for_each events : follows (for_each events).
Proof.
  induction events as [|ev rest IH]; simpl; [apply follows_ret |].
  apply follows_bind; [apply follows_on_event | by intros _].
Qed.

(** The [try] suite of a turn. *)
Lemma follows_try_suite agent :
  follows (run h <- get_history;
           run _ <- async_for (agent h);
           send_text done).
Proof.
  apply follows_bind; [apply follows_get_history | intros h].
  apply follows_bind; [| intros _; apply follows_send_text].
  unfold async_for.
  apply follows_bind; [apply follows_for_each | intros _].
  destruct (run_failure _); [apply follows_raise | apply follows_ret].
Qed.

(** X12: a client that leaves in the middle of a turn makes the handler
    raise.  When the client takes [n] more frames and the [try] suite of
    the turn has more than [n] to send, the send after the [n]-th raises
    [WebSocketDisconnect]; the inner [except Exception] catches it and
    sends an [error] frame on the connection that is closed by then,
    which raises [RuntimeError]; the outer [except WebSocketDisconnect]
    does not catch that, so the handler does not return: the
    [RuntimeError] leaves it.  The client has been sent the first [n]
    frames of the turn and nothing else. *)
Theorem send_failure_in_turn_escapes agent format_exc members s rest c n :
  peer c = Some (S n) ->
  dict_lookup (lit "message") members = Some (JString s) ->
  strip s <> [] ->
  let c1 := with_history (history c ++ [HumanMessage (strip s)]) c in
  (n < length (try_frames agent c1))%nat ->
  let r := websocket_endpoint agent format_exc
             (JSONText (JObject members) :: rest) c in
  r.1 = Raise send_after_close /\
  sent r.2 = sent c ++ take n (try_frames agent c1) /\
  peer r.2 = Some O.
Proof.
  intros Hpeer Hmsg Htext c1 Hlen r. unfold r, websocket_endpoint, try_except.
  rewrite serve_cons, (loop_body_message _ _ _ _ _ Hmsg Htext). fold c1.
  destruct (follows_try_suite agent c1 n Hpeer)
    as (out & _ & Hsent & Hrun).
  assert (try_frames agent c1 = out) as Hout
    by (unfold try_frames; by rewrite Hsent, drop_app_length).
  rewrite Hout in Hlen |- *.
  rewrite bool_decide_eq_false_2 in Hrun by lia.
  destruct Hrun as (h & Hrun).
  unfold turn, try_except. rewrite Hrun. simpl.
  unfold mbind, send_text. simpl. done.
Qed.

Lemma send_failure_in_turn_escapes_witness :
  let members := [(lit "message", JString (lit "What is 2 + 2?"))] in
  let c := {| history := []; sent := []; peer := Some 2%nat |} in
  peer c = Some 2%nat /\
  try_frames example_agent
    (with_history [HumanMessage (lit "What is 2 + 2?")] c)
  = [token (lit "4"); done] /\
  websocket_endpoint example_agent example_format_exc
    [JSONText (JObject members)] c
  = (Raise send_after_close,
     {| history := [HumanMessage (lit "What is 2 + 2?")];
        sent := [token (lit "4")]; peer := Some O |}) /\
  (websocket_endpoint example_agent example_format_exc
     [JSONText (JObject members)] c).1 = Raise send_after_close.
Proof.
  intros members c.
  split; [reflexivity |].
  split; [vm_compute; reflexivity |].
  split; [vm_compute; reflexivity |].
  assert (strip (lit "What is 2 + 2?") <> []) as Htext
    by (vm_compute; discriminate).
  assert (1 < length (try_frames example_agent
                        (with_history
                           (history c
                              ++ [HumanMessage (strip (lit "What is 2 + 2?"))])
                           c)))%nat as Hlen
    by (vm_compute; lia).
  exact (proj1 (send_failure_in_turn_escapes example_agent example_format_exc
                  members (lit "What is 2 + 2?") [] c 1%nat
                  eq_refl eq_refl Htext Hlen)).
Defined.

Lemma turn_counts_one_done agent format_exc c :
  peer c = None ->
  peer (turn agent format_exc c).2 = None /\
  count_occ stream_event_eq_dec (sent (turn agent format_exc c).2) done
  = S (count_occ stream_event_eq_dec (sent c) done).
Proof.
  intros Hopen.
  destruct (turn_shape agent format_exc c Hopen)
    as (pre & Hpre & _ & Hpeer & Hshape).
  split; [exact Hpeer |].
  rewrite turn_sent, count_occ_app.
  pose proof (progress_no_done pre Hpre) as Hcount.
  destruct Hshape as [-> | [m ->]]; rewrite count_occ_app, Hcount; simpl.
  - destruct (stream_event_eq_dec done done); [lia | done].
  - destruct (stream_event_eq_dec (error m) done); [done |].
    destruct (stream_event_eq_dec done done); [lia | done].
Qed.

(** X11: with a client that stays and frames of the protocol, the handler
    answers every frame that has text with exactly one [done]: when it
    returns, the number of [done] frames sent has grown by the number of
    frames that are not blank. *)
Theorem one_done_for_each_message agent format_exc frames c :
  peer c = None ->
  Forall (fun raw => protocol_frame raw = true) frames ->
  let c' := (websocket_endpoint agent format_exc frames c).2 in
  peer c' = None /\
  count_occ stream_event_eq_dec (sent c') done
  = (count_occ stream_event_eq_dec (sent c) done
     + length (filter (fun raw => blank_frame raw = false) frames))%nat.
Proof.
  intros Hopen Hframes.
  assert (let c1 := (serve agent format_exc frames c).2 in
          peer c1 = None /\
          count_occ stream_event_eq_dec (sent c1) done
          = (count_occ stream_event_eq_dec (sent c) done
             + length (filter (fun raw => blank_frame raw = false) frames))%nat)
    as Hserve.
  { revert c Hopen.
    induction Hframes as [|raw rest Hraw _ IH]; intros c Hopen.
    { simpl. split; [done | lia]. }
    cbv zeta. rewrite serve_cons.
    destruct (blank_frame raw) eqn:Hblank.
    - rewrite (loop_body_blank _ _ _ _ Hblank).
      rewrite filter_cons_False by (by rewrite Hblank). by apply IH.
    - rewrite filter_cons_True by done.
      destruct raw as [msg|[| | | | | |members]]; try done.
      simpl in Hraw, Hblank.
      destruct (dict_lookup (lit "message") members) as [[]|] eqn:Hmsg;
        try done.
      apply negb_false_iff in Hblank.
      assert (strip s <> []) as Htext by (by destruct (strip s)).
      rewrite (message_starts_turn agent format_exc members s c Hopen Hmsg
                 Htext).
      destruct (turn_counts_one_done agent format_exc
                  (with_history (history c ++ [HumanMessage (strip s)]) c)
                  Hopen) as [Hpeer Hcount].
      destruct (IH _ Hpeer) as [Hpeer' Hcount'].
      split; [exact Hpeer' |].
      rewrite Hcount', Hcount. simpl. lia. }
  cbv zeta in *. unfold websocket_endpoint, try_except.
  destruct (serve agent format_exc frames c) as [[[]|e] c1]; simpl in *;
    [done |].
  unfold ret. by case_bool_decide.
Qed.

Lemma one_done_for_each_message_witness :
  let frames :=
    [ JSONText (JObject [(lit "message", JString (lit " "))]);
      JSONText (JObject [(lit "message", JString (lit "What is 2 + 2?"))]);
      JSONText (JObject []);
      JSONText (JObject [(lit "message", JString (lit "And 3 + 3?"))]) ] in
  peer accepted = None /\
  Forall (fun raw => protocol_frame raw = true) frames /\
  count_occ stream_event_eq_dec
    (sent (websocket_endpoint example_agent example_format_exc frames
             accepted).2) done
  = 2%nat.
Proof.
  intros frames.
  assert (Forall (fun raw => protocol_frame raw = true) frames) as Hframes
    by (by repeat constructor).
  split; [reflexivity |]. split; [exact Hframes |].
  rewrite (proj2 (one_done_for_each_message example_agent example_format_exc
                    frames accepted eq_refl Hframes)).
  reflexivity.
Defined.

(** * Further properties of the file tools *)



Lemma node_at_weaken (f f' : gmap (list pystr) node) l n :
  f ⊆ f' -> node_at f l = Some n -> node_at f' l = Some n.
Proof.
  intros Hsub. destruct l; [done |]. simpl. intros H.
  by apply (lookup_weaken f).
Qed.

(** A path that led somewhere still leads there when nodes are added. *)
Lemma walk_weaken (f f' : gmap (list pystr) node) p p' comps :
  f ⊆ f' ->
  forall cur r, walk f p cur comps = Ok r -> walk f' p' cur comps = Ok r.
Proof.
  intros Hsub. induction comps as [|c rest IH]; intros cur r; simpl; [done |].
  destruct (node_at f cur) as [[]|] eqn:Hcur; try done.
  rewrite (node_at_weaken f f' cur Dir Hsub Hcur).
  repeat case_bool_decide; apply IH.
Qed.

Lemma mkdirs_extends p comps :
  forall cur f, f ⊆ (mkdirs p cur comps f).2.
Proof.
  induction comps as [|c rest IH]; intros cur f; simpl.
  - by destruct (node_at f cur) as [[]|].
  - destruct (node_at f cur) as [[]|]; try done.
    repeat case_bool_decide; try apply IH.
    destruct (f !! (cur ++ [c])) eqn:Hlook; [apply IH |].
    etrans; [| apply IH]. by apply insert_subseteq.
Qed.

(** After [os.makedirs] has succeeded the path leads to a directory. *)
Lemma mkdirs_ok p p' comps :
  forall cur f f',
    mkdirs p cur comps f = (Ok tt, f') ->
    exists r, walk f' p' cur comps = Ok r /\ node_at f' r = Some Dir.
Proof.
  induction comps as [|c rest IH]; intros cur f f'; simpl.
  - destruct (node_at f cur) as [[]|] eqn:Hcur; try done.
    intros [= <-]. by exists cur.
  - destruct (node_at f cur) as [[]|] eqn:Hcur; try done.
    intros Hrun.
    assert (node_at f' cur = Some Dir) as Hcur'.
    { apply (node_at_weaken f); [| done].
      replace f' with (mkdirs p cur (c :: rest) f).2.
      - apply mkdirs_extends.
      - simpl. rewrite Hcur. by rewrite Hrun. }
    rewrite Hcur'.
    repeat case_bool_decide; try (by eapply IH).
    destruct (f !! (cur ++ [c])); by eapply IH.
Qed.

(** [os.makedirs] on a path that leads to a directory changes nothing. *)
Lemma mkdirs_existing p p' comps f :
  forall cur r,
    walk f p' cur comps = Ok r -> node_at f r = Some Dir ->
    node_at f cur = Some Dir /\ mkdirs p cur comps f = (Ok tt, f).
Proof.
  induction comps as [|c rest IH]; intros cur r; simpl.
  - intros [= <-] Hr. by rewrite Hr.
  - destruct (node_at f cur) as [[]|] eqn:Hcur; try done.
    intros Hwalk Hr. split; [done |].
    repeat case_bool_decide; try (by eapply IH).
    destruct (IH _ _ Hwalk Hr) as [Hnext Hrun].
    assert (cur ++ [c] <> []) as Hne by (by destruct cur).
    rewrite node_at_nonempty in Hnext by done. by rewrite Hnext.
Qed.

Lemma os_makedirs_ok p w w1 :
  os_makedirs p w = (Ok tt, w1) ->
  fs w ⊆ fs w1 /\ cwd w1 = cwd w /\
  exists r, resolve w1 p = Ok r /\ node_at (fs w1) r = Some Dir.
Proof.
  unfold os_makedirs, resolve.
  destruct (path_converter p) as [[]|]; [| done].
  destruct p as [|c p]; [done |].
  pose proof (mkdirs_extends (c :: p) (split_on 47 (c :: p))
                (if c =? 47 then [] else cwd w) (fs w)) as Hsub.
  destruct (mkdirs _ _ _ (fs w)) as [r f'] eqn:Hrun.
  intros [= -> <-]. simpl in *. split; [done |]. split; [done |].
  by eapply mkdirs_ok.
Qed.

(** The steps of a write that succeeds. *)
Lemma write_file_try_steps file_path content w s w' :
  write_file_try file_path content w = (Ok s, w') ->
  exists w1 l bytes,
    (if truthy (dirname file_path)
     then os_makedirs (dirname file_path) else ret tt) w = (Ok tt, w1) /\
    resolve w1 file_path = Ok l /\ l <> [] /\ fs w1 !! l <> Some Dir /\
    utf8_encode content = Ok bytes /\
    w' = set_fs w1 (<[l := File bytes]> (fs w1)).
Proof.
  unfold write_file_try, mbind.
  destruct ((if truthy (dirname file_path)
             then os_makedirs (dirname file_path) else ret ()) w)
    as [[[]|e] w1]; [| done].
  unfold open_w.
  destruct (resolve w1 file_path) as [l|e] eqn:Hres; [| done].
  assert (forall w2,
            w2 = set_fs w1 (<[l := File []]> (fs w1)) ->
            (let (r, s') := f_write l content w2 in
             match r with
             | Ok _ => ret (wrote_string content file_path) s'
             | Raise e => (Raise e, s')
             end) = (Ok s, w') ->
            exists bytes,
              utf8_encode content = Ok bytes /\
              w' = set_fs w1 (<[l := File bytes]> (fs w1))) as Hwrite.
  { intros w2 -> . unfold f_write.
    destruct (utf8_encode content) as [bytes|e]; [| done].
    unfold ret. intros [= <- <-].
    exists bytes. split; [done |].
    unfold set_fs; simpl. by rewrite insert_insert_eq. }
  destruct (node_at (fs w1) l) as [[data| |]|] eqn:Hnode; try done.
  - assert (l <> []) as Hne by (intros ->; done).
    rewrite node_at_nonempty in Hnode by done.
    intros Hrun. destruct (Hwrite _ eq_refl Hrun) as (bytes & Henc & ->).
    exists w1, l, bytes. repeat split; try done. congruence.
  - assert (l <> []) as Hne by (intros ->; done).
    rewrite node_at_nonempty in Hnode by done.
    destruct (node_at (fs w1) (removelast l)) as [[]|]; try done.
    intros Hrun. destruct (Hwrite _ eq_refl Hrun) as (bytes & Henc & ->).
    exists w1, l, bytes. repeat split; try done. congruence.
Qed.

Lemma resolve_weaken w w1 q r :
  fs w ⊆ fs w1 -> cwd w1 = cwd w ->
  resolve w q = Ok r -> resolve w1 q = Ok r.
Proof.
  intros Hsub Hcwd. unfold resolve.
  destruct (path_converter q) as [[]|]; [| done].
  destruct q as [|c q]; [done |]. rewrite Hcwd. by apply walk_weaken.
Qed.

Lemma makedirs_step_ok file_path w w1 :
  (if truthy (dirname file_path)
   then os_makedirs (dirname file_path) else ret tt) w = (Ok tt, w1) ->
  fs w ⊆ fs w1 /\ cwd w1 = cwd w /\
  (dirname file_path <> [] ->
   exists r, resolve w1 (dirname file_path) = Ok r /\
             node_at (fs w1) r = Some Dir).
Proof.
  destruct (dirname file_path) as [|ch parent] eqn:Hparent; simpl.
  - by intros [= <-].
  - intros Hrun. apply os_makedirs_ok in Hrun as (Hsub & Hcwd & Hdir).
    by repeat split.
Qed.

Lemma write_file_steps w file_path content :
  write_succeeds w file_path content ->
  exists w1 l bytes,
    (if truthy (dirname file_path)
     then os_makedirs (dirname file_path) else ret tt) w = (Ok tt, w1) /\
    resolve w1 file_path = Ok l /\ l <> [] /\ fs w1 !! l <> Some Dir /\
    utf8_encode content = Ok bytes /\
    (write_file file_path content w).2
    = set_fs w1 (<[l := File bytes]> (fs w1)).
Proof.
  intros Hok.
  destruct (write_file_succeeds w file_path content Hok) as [Hrun _].
  destruct Hok as [s Hs].
  destruct (write_file_try file_path content w) as [r w2] eqn:Htry.
  simpl in Hs. subst r.
  destruct (write_file_try_steps _ _ _ _ _ Htry)
    as (w1 & l & bytes & H1 & H2 & H3 & H4 & H5 & ->).
  exists w1, l, bytes. rewrite Hrun. by repeat split.
Qed.

Lemma node_at_insert_other (f : gmap (list pystr) node) l r n d :
  node_at f r = Some n -> f !! l <> Some n -> l <> [] ->
  node_at (<[l := File d]> f) r = Some n.
Proof.
  intros Hr Hl Hne. destruct r as [|c r]; [done |]. simpl in *.
  rewrite lookup_insert_ne; [done |]. intros ->. congruence.
Qed.

(** X6: a write that succeeds leaves the parent directory in place: when
    the path has a directory part, that part leads to a directory
    afterwards, created by [os.makedirs] if it was not there. *)
Theorem write_file_makes_parent w file_path content :
  write_succeeds w file_path content ->
  dirname file_path <> [] ->
  let after := (write_file file_path content w).2 in
  exists r, resolve after (dirname file_path) = Ok r /\
            node_at (fs after) r = Some Dir.
Proof.
  intros Hok Hparent after. subst after.
  destruct (write_file_steps w file_path content Hok)
    as (w1 & l & bytes & Hmk & Hres & Hne & Hnd & _ & ->).
  apply makedirs_step_ok in Hmk as (_ & _ & Hdir).
  destruct (Hdir Hparent) as (r & Hr & Hnode).
  exists r. split.
  - by apply resolve_insert_file.
  - simpl. by apply node_at_insert_other.
Qed.

Lemma write_file_makes_parent_witness :
  write_succeeds example_world (lit "notes/2024/plan.txt") (lit "step 1") /\
  dirname (lit "notes/2024/plan.txt") = lit "notes/2024" /\
  fs example_world !! [lit "notes"; lit "2024"] = None /\
  exists r,
    resolve (write_file (lit "notes/2024/plan.txt") (lit "step 1")
               example_world).2 (dirname (lit "notes/2024/plan.txt"))
    = Ok r /\
    node_at (fs (write_file (lit "notes/2024/plan.txt") (lit "step 1")
                   example_world).2) r = Some Dir.
Proof.
  assert (write_succeeds example_world (lit "notes/2024/plan.txt")
            (lit "step 1")) as Hok by (eexists; vm_compute; reflexivity).
  split; [exact Hok |]. split; [vm_compute; reflexivity |].
  split; [vm_compute; reflexivity |].
  apply (write_file_makes_parent example_world (lit "notes/2024/plan.txt")
           (lit "step 1") Hok).
  vm_compute. discriminate.
Defined.

(** X7: a write changes one file only: a regular file that another path
    leads to holds the same bytes after the write as before. *)
Theorem write_file_touches_one_file w file_path content other data :
  write_succeeds w file_path content ->
  file_bytes w other = Some data ->
  let after := (write_file file_path content w).2 in
  resolve after other <> resolve after file_path ->
  file_bytes after other = Some data.
Proof.
  intros Hok Hother after Hdiff. subst after.
  destruct (write_file_steps w file_path content Hok)
    as (w1 & l & bytes & Hmk & Hres & Hne & Hnd & _ & Hafter).
  rewrite Hafter in *. clear Hafter.
  apply makedirs_step_ok in Hmk as (Hsub & Hcwd & _).
  unfold file_bytes in Hother.
  destruct (resolve w other) as [r|e] eqn:Hr; [| done].
  destruct (node_at (fs w) r) as [[d| |]|] eqn:Hnode; try done.
  injection Hother as ->.
  pose proof (resolve_weaken w w1 other r Hsub Hcwd Hr) as Hr1.
  pose proof (node_at_weaken _ _ _ _ Hsub Hnode) as Hnode1.
  pose proof (resolve_insert_file w1 l bytes other r Hne Hnd Hr1) as Hr2.
  pose proof (resolve_insert_file w1 l bytes file_path l Hne Hnd Hres) as Hl2.
  rewrite Hr2, Hl2 in Hdiff.
  unfold file_bytes. rewrite Hr2. simpl.
  assert (r <> []) as Hrne by (intros ->; done).
  rewrite node_at_nonempty in * by done.
  rewrite lookup_insert_ne by congruence. by rewrite Hnode1.
Qed.

Lemma write_file_touches_one_file_witness :
  let after := (write_file (lit "proj/new.txt") (lit "n") project_world).2 in
  write_succeeds project_world (lit "proj/new.txt") (lit "n") /\
  file_bytes project_world (lit "proj/a/deep.txt") = Some (lit "deep") /\
  resolve after (lit "proj/a/deep.txt") <> resolve after (lit "proj/new.txt") /\
  file_bytes after (lit "proj/a/deep.txt") = Some (lit "deep").
Proof.
  intros after.
  assert (write_succeeds project_world (lit "proj/new.txt") (lit "n"))
    as Hok by (eexists; vm_compute; reflexivity).
  assert (file_bytes project_world (lit "proj/a/deep.txt")
          = Some (lit "deep")) as Hother by (vm_compute; reflexivity).
  assert (resolve after (lit "proj/a/deep.txt")
          <> resolve after (lit "proj/new.txt")) as Hdiff
    by (vm_compute; discriminate).
  split; [exact Hok |]. split; [exact Hother |]. split; [exact Hdiff |].
  exact (write_file_touches_one_file project_world (lit "proj/new.txt")
           (lit "n") (lit "proj/a/deep.txt") (lit "deep") Hok Hother Hdiff).
Defined.

Lemma set_fs_same w : set_fs w (fs w) = w.
Proof. by destruct w. Qed.

Lemma os_makedirs_existing p w r :
  resolve w p = Ok r -> node_at (fs w) r = Some Dir ->
  os_makedirs p w = (Ok tt, w).
Proof.
  unfold resolve, os_makedirs.
  destruct (path_converter p) as [[]|]; [| done].
  destruct p as [|c p]; [done |]. intros Hwalk Hdir.
  destruct (mkdirs_existing (c :: p) (c :: p) _ _ _ _ Hwalk Hdir)
    as [_ ->].
  by rewrite set_fs_same.
Qed.

(** X16: a path that has been written can be written again, with any
    content that encodes, and then holds the bytes of the new content
    only: [open(..., "w")] truncates. *)
Theorem write_file_overwrites w file_path first second bytes :
  write_succeeds w file_path first ->
  utf8_encode second = Ok bytes ->
  let w1 := (write_file file_path first w).2 in
  write_succeeds w1 file_path second /\
  file_bytes (write_file file_path second w1).2 file_path = Some bytes.
Proof.
  intros Hok Henc w1.
  assert (write_succeeds w1 file_path second) as Hok2.
  { subst w1.
    destruct (write_file_steps w file_path first Hok)
      as (w0 & l & bytes1 & Hmk & Hres & Hne & Hnd & _ & ->).
    apply makedirs_step_ok in Hmk as (_ & _ & Hdir).
    pose proof (resolve_insert_file w0 l bytes1 file_path l Hne Hnd Hres)
      as Hres1.
    exists (wrote_string second file_path).
    unfold write_file_try, mbind.
    assert ((if truthy (dirname file_path)
             then os_makedirs (dirname file_path) else ret tt)
              (set_fs w0 (<[l := File bytes1]> (fs w0)))
            = (Ok tt, set_fs w0 (<[l := File bytes1]> (fs w0)))) as ->.
    { destruct (dirname file_path) as [|ch parent] eqn:Hparent; [done |].
      destruct (Hdir ltac:(done)) as (r & Hr & Hnode).
      apply (os_makedirs_existing _ _ r).
      - by apply resolve_insert_file.
      - simpl. by apply node_at_insert_other. }
    unfold open_w. rewrite Hres1. simpl.
    rewrite node_at_nonempty, lookup_insert_eq by done.
    unfold f_write. by rewrite Henc. }
  split; [exact Hok2 |].
  destruct (write_file_succeeds w1 file_path second Hok2)
    as (_ & bytes' & Henc' & Hfile).
  congruence.
Qed.

Lemma write_file_overwrites_witness :
  let w1 := (write_file (lit "notes/plan.txt") (lit "step 1")
               example_world).2 in
  write_succeeds example_world (lit "notes/plan.txt") (lit "step 1") /\
  utf8_encode (lit "x") = Ok (lit "x") /\
  write_succeeds w1 (lit "notes/plan.txt") (lit "x") /\
  file_bytes (write_file (lit "notes/plan.txt") (lit "x") w1).2
    (lit "notes/plan.txt") = Some (lit "x").
Proof.
  intros w1.
  assert (write_succeeds example_world (lit "notes/plan.txt") (lit "step 1"))
    as Hok by (eexists; vm_compute; reflexivity).
  assert (utf8_encode (lit "x") = Ok (lit "x")) as Henc
    by (vm_compute; reflexivity).
  split; [exact Hok |]. split; [exact Henc |].
  exact (write_file_overwrites example_world (lit "notes/plan.txt")
           (lit "step 1") (lit "x") (lit "x") Hok Henc).
Defined.

Lemma split_on_plain sep (s : pystr) : sep ∉ s -> split_on sep s = [s].
Proof.
  induction s as [|c s IH]; [done |].
  rewrite not_elem_of_cons. intros [Hc Hs]. simpl.
  destruct (N.eqb_spec c sep); [congruence |]. by rewrite IH.
Qed.

Lemma split_on_nonempty sep (s : pystr) : split_on sep s <> [].
Proof.
  destruct s as [|c s]; simpl; [done |].
  destruct (c =? sep); [done |]. by destruct (split_on sep s).
Qed.

Lemma split_on_snoc sep (d name : pystr) :
  sep ∉ name ->
  split_on sep (d ++ [sep] ++ name) = split_on sep d ++ [name].
Proof.
  intros Hname. induction d as [|c d IH]; simpl in *.
  - rewrite N.eqb_refl. by rewrite split_on_plain.
  - destruct (c =? sep); rewrite IH; [done |].
    pose proof (split_on_nonempty sep d) as Hne.
    by destruct (split_on sep d).
Qed.

(** The last step of a path through a file name. *)
Lemma walk_snoc f p comps c :
  c <> [] -> c <> lit "." -> c <> lit ".." ->
  forall cur l,
    walk f p cur (comps ++ [c]) = Ok l ->
    exists parent,
      walk f p cur comps = Ok parent /\
      node_at f parent = Some Dir /\ l = parent ++ [c].
Proof.
  intros H1 H2 H3. induction comps as [|c0 rest IH]; intros cur l; simpl.
  - destruct (node_at f cur) as [[]|] eqn:Hcur; try done.
    rewrite bool_decide_eq_false_2 by (intros [? | ?]; done).
    rewrite bool_decide_eq_false_2 by done.
    intros [= <-]. by exists cur.
  - destruct (node_at f cur) as [[]|] eqn:Hcur; try done.
    repeat case_bool_decide; apply IH.
Qed.

Lemma fsencode_from_prefix a b pos :
  fsencode_from pos (a ++ b) = Ok tt -> fsencode_from pos a = Ok tt.
Proof.
  revert pos. induction a as [|c a IH]; intros pos; simpl; [done |].
  destruct (fs_encodable c); [apply IH | done].
Qed.

(** A prefix of a path the system takes is taken too. *)
Lemma path_converter_prefix a b :
  path_converter (a ++ b) = Ok tt -> path_converter a = Ok tt.
Proof.
  unfold path_converter.
  destruct (fsencode_from 0 (a ++ b)) as [[]|] eqn:Henc; [| done].
  rewrite (fsencode_from_prefix a b 0 Henc).
  repeat case_bool_decide; try done.
  exfalso. set_solver.
Qed.

(** X17: a file written into a directory shows up when the directory is
    listed: after a successful write to [directory/name], [os.scandir] of
    the directory has an entry for the file with the bytes written, and
    [list_files] returns the listing of the entries scanned. *)
Theorem written_file_is_listed w directory name content :
  directory <> [] -> plain_name name ->
  write_succeeds w (directory ++ lit "/" ++ name) content ->
  let after := (write_file (directory ++ lit "/" ++ name) content w).2 in
  exists bytes scanned,
    utf8_encode content = Ok bytes /\
    os_scandir directory after = (Ok scanned, after) /\
    {| name := name; entry_node := File bytes |} ∈ sorted scanned /\
    list_files directory after = (Ok (listing (sorted scanned)), after).
Proof.
  intros Hdir (Hname & Hslash & Hdot & Hdotdot) Hok after.
  destruct (write_file_succeeds w _ content Hok)
    as (_ & bytes & Henc & Hfile).
  fold after in Hfile. clearbody after.
  unfold file_bytes, resolve in Hfile.
  destruct (path_converter _) as [[]|] eqn:Hconv; [| done].
  change (lit "/") with [47] in *.
  rewrite split_on_snoc in Hfile by done.
  destruct directory as [|c0 d]; [done |]. cbn [app] in Hfile.
  destruct (walk (fs after) _ _ _) as [l|e] eqn:Hwalk; [| done].
  destruct (node_at (fs after) l) as [[data| |]|] eqn:Hnode; try done.
  injection Hfile as ->.
  apply walk_snoc in Hwalk as (parent & Hparent & Hpdir & ->); try done.
  assert (resolve after (c0 :: d) = Ok parent) as Hres.
  { unfold resolve.
    rewrite (path_converter_prefix _ _ Hconv).
    eapply walk_weaken; [done | exact Hparent]. }
  assert (os_scandir (c0 :: d) after
          = (Ok (omap (child_of parent) (map_to_list (fs after))), after))
    as Hscan.
  { unfold os_scandir. by rewrite Hres, Hpdir. }
  exists bytes, (omap (child_of parent) (map_to_list (fs after))).
  split; [done |]. split; [exact Hscan |]. split.
  - rewrite sorted_perm. apply scandir_children. simpl.
    rewrite node_at_nonempty in Hnode; [done |]. by destruct parent.
  - unfold list_files. rewrite except_exception_total.
    unfold list_files_try, mbind. by rewrite Hscan.
Qed.

Lemma written_file_is_listed_witness :
  let after := (write_file (lit "proj" ++ lit "/" ++ lit "new.txt")
                  (lit "n") project_world).2 in
  lit "proj" <> [] /\ plain_name (lit "new.txt") /\
  write_succeeds project_world (lit "proj" ++ lit "/" ++ lit "new.txt")
    (lit "n") /\
  (list_files (lit "proj") after).1
  = Ok (lit "[DIR ] a" ++ [10] ++ lit "[DIR ] b" ++ [10]
          ++ lit "[FILE] new.txt (1 B)" ++ [10]
          ++ lit "[FILE] y.txt (1 B)" ++ [10] ++ lit "[FILE] z.txt (2 B)") /\
  exists bytes scanned,
    utf8_encode (lit "n") = Ok bytes /\
    os_scandir (lit "proj") after = (Ok scanned, after) /\
    {| name := lit "new.txt"; entry_node := File bytes |} ∈ sorted scanned /\
    list_files (lit "proj") after = (Ok (listing (sorted scanned)), after).
Proof.
  intros after.
  assert (lit "proj" <> []) as Hdir by discriminate.
  assert (plain_name (lit "new.txt")) as Hname.
  { repeat split; try discriminate.
    apply (bool_decide_unpack _). vm_compute. exact I. }
  assert (write_succeeds project_world
            (lit "proj" ++ lit "/" ++ lit "new.txt") (lit "n")) as Hok
    by (eexists; vm_compute; reflexivity).
  split; [exact Hdir |]. split; [exact Hname |]. split; [exact Hok |].
  split; [vm_compute; reflexivity |].
  exact (written_file_is_listed project_world (lit "proj") (lit "new.txt")
           (lit "n") Hdir Hname Hok).
Defined.

(** * The smoke-test client *)

Example test_example :
  test [token (lit "2 + 2 = "); tool_start (lit "execute_python") (lit "{}");
        tool_end (lit "execute_python") (lit "4"); token (lit "4"); done;
        token (lit "late")]
  = ({| full_response := lit "2 + 2 = 4";
        printed :=
          lit "Connecting to ws://localhost:8000/ws/chat ..." ++ [10]
          ++ lit "WebSocket connected!" ++ [10; 10]
          ++ lit "Message sent. Waiting for response..." ++ [10; 10]
          ++ lit "2 + 2 = " ++ [10]
          ++ lit "[TOOL START] execute_python | input: {}" ++ [10]
          ++ lit "[TOOL END]   execute_python | output: 4" ++ [10; 10]
          ++ lit "4" ++ [10; 10] ++ lit "--- Response complete ---" ++ [10]
          ++ [10] ++ lit "Full response length: 9 chars" ++ [10] |},
     Completed, [token (lit "late")]).
Proof. vm_compute. reflexivity. Qed.














